(** * Wind turbine power curve: [wind_turbine_power] of main_project01.py

    A shallow embedding of the one function of the repository and the
    properties of its piecewise power curve.

    The Python function computes on [float], the binary64 numbers of
    IEEE 754.  The function is embedded twice, with the same control
    flow.

    - The exact embedding ([wind_turbine_power]) takes rationals ([Q]):
      comparisons are the exact ones and the arithmetic is that of the
      field, with no rounding, no infinities and no NaN.  It carries the
      properties that rest on the comparisons of the function and on
      values returned unchanged (the literal [0.0], the argument
      [rated_power]), the validation of the option, the examples of the
      [__main__] block, and the invariance under a common offset.  Two
      rationals that denote the same number are related by [==]
      ([Qeq]).

    - The binary64 embedding ([Binary64.wind_turbine_power]) takes the
      primitive floats of Rocq, specified by [SpecFloat]: [-], [/] and
      [*] round to nearest even, comparisons are those of IEEE 754 (a
      NaN fails all of them), [/] raises [ZeroDivisionError] on a divisor
      equal to zero of either sign, and [** 3] follows the [float_pow] of
      CPython around the [pow] of the C library, which is a parameter.
      It carries the properties that depend on computed values.  Those
      on the order of the results (the ramp does not decrease, the
      result stays between zero and the rated power) rest on a proof,
      from the definitions of [SpecFloat], that rounding to nearest even
      is monotone, and with it [-], [/] and [*] where the results are
      not negative.

    The arguments are floats, as the signature annotates them. *)

From Stdlib Require Import QArith Qfield Lqa Lia ZArith.
From Stdlib Require Import Bool String List.
From Stdlib Require Floats.
Import ListNotations.

Local Open Scope string_scope.
Local Open Scope Q_scope.

(** ** Exceptions and results *)

(** The exceptions the function body can raise.  [ValueError] carries its
    message; [UnboundLocalError] names the local that was read before it
    was assigned; [OverflowError] is what [**] raises on floats. *)
Inductive exn : Type :=
| ValueError (msg : string)
| ZeroDivisionError
| OverflowError
| UnboundLocalError (name : string).

(** A call either returns a value or raises. *)
Inductive result (A : Type) : Type :=
| Ok (a : A)
| Raise (e : exn).

Arguments Ok {A} a.
Arguments Raise {A} e.

Definition bind {A B : Type} (m : result A) (k : A -> result B) : result B :=
  match m with
  | Ok a => k a
  | Raise e => Raise e
  end.

Notation "x <- m ;; k" := (bind m (fun x => k))
  (at level 61, m at next level, right associativity).

(** [returns m v]: the call returned, and its value denotes the number [v]. *)
Definition returns (m : result Q) (v : Q) : Prop :=
  exists p, m = Ok p /\ p == v.

(** [raises m]: the call ended in an exception. *)
Definition raises {A : Type} (m : result A) : Prop :=
  exists e, m = Raise e.

(** ** Python operators on numbers, exact embedding *)

(** [x < y] *)
Definition Qlt_bool (x y : Q) : bool :=
  (Qnum x * QDen y <? Qnum y * QDen x)%Z.

(** [x / y] in the exact embedding: the quotient of the field, and a
    zero divisor raises.  The division of doubles, which rounds, is
    [Binary64.truediv]. *)
Definition truediv (x y : Q) : result Q :=
  if Qeq_bool y 0 then Raise ZeroDivisionError else Ok (x / y).

(** [s in l] for a list of strings. *)
Definition str_in (s : string) (l : list string) : bool :=
  existsb (String.eqb s) l.

(** ** The function, exact embedding *)

Definition invalid_option_message : string :=
  "Invalid interpolation option. Choose 'linear' or 'cubic'.".

(** The body of the [elif cut_in_wind_speed <= wind_speed < rated_wind_speed]
    branch: the fractional power [g_v] by the selected interpolation, then
    [return g_v * rated_power].  With an option that is neither string no
    assignment to [g_v] runs and the [return] reads an unbound local.
    Here the arithmetic is exact; [Binary64.ramp_branch] is the branch on
    doubles, with rounding, underflow and the [OverflowError] of [**]. *)
Definition ramp_branch
    (wind_speed rated_power cut_in_wind_speed rated_wind_speed : Q)
    (interpolation_option : string) : result Q :=
  g_v <- (if interpolation_option =? "linear" then
            truediv (wind_speed - cut_in_wind_speed)
                    (rated_wind_speed - cut_in_wind_speed)
          else if interpolation_option =? "cubic" then
            truediv (wind_speed ^ 3) (rated_wind_speed ^ 3)
          else Raise (UnboundLocalError "g_v")) ;;
  Ok (g_v * rated_power).

(** The test of the first [if]:
    [wind_speed < cut_in_wind_speed or wind_speed >= cut_out_wind_speed]. *)
Definition idle_test (wind_speed cut_in_wind_speed cut_out_wind_speed : Q)
  : bool :=
  Qlt_bool wind_speed cut_in_wind_speed
  || Qle_bool cut_out_wind_speed wind_speed.

(** The test of the [elif]:
    [cut_in_wind_speed <= wind_speed < rated_wind_speed], a chained
    comparison, that is the conjunction of its two halves. *)
Definition ramp_test (wind_speed cut_in_wind_speed rated_wind_speed : Q)
  : bool :=
  Qle_bool cut_in_wind_speed wind_speed
  && Qlt_bool wind_speed rated_wind_speed.

(** The [if] / [elif] / [else] over the wind speed ranges, the part of the
    body after the validation.  The rationals are totally ordered;
    [Binary64.region_logic] has the comparisons of doubles, which a NaN
    fails. *)
Definition region_logic
    (wind_speed rated_power cut_in_wind_speed rated_wind_speed
       cut_out_wind_speed : Q)
    (interpolation_option : string) : result Q :=
  if idle_test wind_speed cut_in_wind_speed cut_out_wind_speed then
    Ok 0
  else if ramp_test wind_speed cut_in_wind_speed rated_wind_speed then
    ramp_branch wind_speed rated_power cut_in_wind_speed rated_wind_speed
                interpolation_option
  else
    Ok rated_power.

Definition wind_turbine_power
    (wind_speed rated_power cut_in_wind_speed rated_wind_speed
       cut_out_wind_speed : Q)
    (interpolation_option : string) : result Q :=
  if negb (str_in interpolation_option ["linear"; "cubic"]) then
    Raise (ValueError invalid_option_message)
  else
    region_logic wind_speed rated_power cut_in_wind_speed rated_wind_speed
                 cut_out_wind_speed interpolation_option.

(** The defaults of the signature. *)
Definition default_rated_power : Q := 15.
Definition default_cut_in_wind_speed : Q := 3.
Definition default_rated_wind_speed : Q := 11.
Definition default_cut_out_wind_speed : Q := 25.
Definition default_interpolation_option : string := "linear".

(** A call that passes [wind_speed] and the option only, as the examples
    of the [__main__] block do. *)
Definition wind_turbine_power_default
    (wind_speed : Q) (interpolation_option : string) : result Q :=
  wind_turbine_power wind_speed default_rated_power default_cut_in_wind_speed
    default_rated_wind_speed default_cut_out_wind_speed interpolation_option.

(** The two options the validation accepts. *)
Definition valid_option (interpolation_option : string) : Prop :=
  interpolation_option = "linear" \/ interpolation_option = "cubic".


(** ** The function on binary64 numbers *)

Module Binary64.

Import Floats.
Local Open Scope float_scope.

(** [x / y] on floats: a divisor that compares equal to zero, [0.0] or
    [-0.0], raises; a NaN divisor does not. *)
Definition truediv (x y : float) : result float :=
  if y =? 0 then Raise ZeroDivisionError else Ok (x / y).

Section Libm.

(** [pow (x, 3.0)] of the C library, which [float_pow] calls on a
    finite, positive [x] other than one. *)
Variable libm_pow3 : float -> float.

(** [iv ** 3] on a float, after [float_pow] of CPython: a NaN, an
    infinity and a zero are returned as they are (the exponent is odd and
    positive); a negative base is negated and the result negated back; a
    base of one gives one; otherwise the C library computes the power,
    and a result that is infinite is reported as [OverflowError], while
    one that underflows, to zero included, is returned. *)
Definition float_pow3 (iv : float) : result float :=
  if is_nan iv then Ok iv
  else if is_infinity iv then Ok iv
  else if iv =? 0 then Ok iv
  else
    let negate_result := iv <? 0 in
    let iv := if negate_result then - iv else iv in
    if iv =? 1 then Ok (if negate_result then - 1 else 1)
    else
      let ix := libm_pow3 iv in
      if is_infinity ix then Raise OverflowError
      else Ok (if negate_result then - ix else ix).

(** The body of the [elif] branch.  The operands of [/] are evaluated
    left to right: [wind_speed**3] first, then [rated_wind_speed**3],
    then the division. *)
Definition ramp_branch
    (wind_speed rated_power cut_in_wind_speed rated_wind_speed : float)
    (interpolation_option : string) : result float :=
  g_v <- (if String.eqb interpolation_option "linear" then
            truediv (wind_speed - cut_in_wind_speed)
                    (rated_wind_speed - cut_in_wind_speed)
          else if String.eqb interpolation_option "cubic" then
            a <- float_pow3 wind_speed ;;
            b <- float_pow3 rated_wind_speed ;;
            truediv a b
          else Raise (UnboundLocalError "g_v")) ;;
  Ok (g_v * rated_power).

(** [wind_speed < cut_in_wind_speed or wind_speed >= cut_out_wind_speed] *)
Definition idle_test (wind_speed cut_in_wind_speed cut_out_wind_speed : float)
  : bool :=
  (wind_speed <? cut_in_wind_speed)
  || (cut_out_wind_speed <=? wind_speed).

(** [cut_in_wind_speed <= wind_speed < rated_wind_speed] *)
Definition ramp_test (wind_speed cut_in_wind_speed rated_wind_speed : float)
  : bool :=
  (cut_in_wind_speed <=? wind_speed)
  && (wind_speed <? rated_wind_speed).

Definition region_logic
    (wind_speed rated_power cut_in_wind_speed rated_wind_speed
       cut_out_wind_speed : float)
    (interpolation_option : string) : result float :=
  if idle_test wind_speed cut_in_wind_speed cut_out_wind_speed then
    Ok 0
  else if ramp_test wind_speed cut_in_wind_speed rated_wind_speed then
    ramp_branch wind_speed rated_power cut_in_wind_speed rated_wind_speed
                interpolation_option
  else
    Ok rated_power.

Definition wind_turbine_power
    (wind_speed rated_power cut_in_wind_speed rated_wind_speed
       cut_out_wind_speed : float)
    (interpolation_option : string) : result float :=
  if negb (str_in interpolation_option ["linear"; "cubic"]) then
    Raise (ValueError invalid_option_message)
  else
    region_logic wind_speed rated_power cut_in_wind_speed rated_wind_speed
                 cut_out_wind_speed interpolation_option.

End Libm.

(** A C library whose [pow (x, 3.0)] is the exact cube rounded once to
    nearest even.  It is used to evaluate calls at concrete numbers; the
    numbers evaluated below have a cube that is a double, or that
    overflows, or that is below half the smallest double, where every C
    library returns the same. *)
Definition correctly_rounded_cube (x : float) : float :=
  match Prim2SF x with
  | S754_finite s m e =>
      SF2Prim (binary_normalize prec emax
                 (cond_Zopp s (Zpos (m * m * m))) (3 * e) false)
  | _ => x
  end.

(** A result of [SpecFloat] that is a positive number or plus infinity. *)
Definition positive_result (f : spec_float) : Prop :=
  match f with
  | S754_finite false _ _ | S754_infinity false => True
  | _ => False
  end.

End Binary64.


(** ** Rounding to nearest even, in integers

    The definitions below describe what [SpecFloat] computes when it
    rounds, in terms of integers only.  They serve the proofs that the
    three operations of the linear ramp are monotone. *)

Module Round64.

Import Floats.
Local Open Scope Z_scope.

(** The key of a shift record: the mantissa with its round bit and its
    sticky bit below it, as one integer.  Its two low bits are the
    location of the value between two mantissas. *)
Definition key (r : shr_record) : Z :=
  4 * shr_m r + (if shr_r r then 2 else 0) + (if shr_s r then 1 else 0).

(** What [shr_1] does to a key: a shift right by one bit in which the
    bit shifted out is kept in the sticky bit. *)
Definition sticky_half (k : Z) : Z :=
  2 * (k / 4) + (if k mod 4 =? 0 then 0 else 1).

(** What [round_nearest_even] returns on a key: the mantissa, or its
    successor when the value lies above the middle, or at the middle
    with an odd mantissa. *)
Definition round_key (k : Z) : Z :=
  let m := k / 4 in
  match k mod 4 with
  | 0 | 1 => m
  | 2 => if Z.even m then m else m + 1
  | _ => m + 1
  end.

(** The two low bits of a key, for a location. *)
Definition loc_code (l : location) : Z :=
  match l with
  | loc_Exact => 0
  | loc_Inexact Lt => 1
  | loc_Inexact Eq => 2
  | loc_Inexact Gt => 3
  end.

(** [n] shifts with a sticky bit. *)
Definition shift_key (n : nat) (k : Z) : Z := Nat.iter n sticky_half k.

(** The canonical exponent of binary64, [fexp prec emax]. *)
Definition fexp64 (z : Z) : Z := Z.max (z - 53) (-1074).

(** The position of a non-negative result in the order of the binary64
    numbers: its bit pattern read as an integer. *)
Definition ord (f : spec_float) : Z :=
  match f with
  | S754_zero _ => 0
  | S754_finite _ m e => (e + 1074) * 2 ^ 52 + Zpos m
  | S754_infinity _ => 2047 * 2 ^ 52
  | S754_nan => 0
  end.

(** A zero, a canonical positive number or plus infinity. *)
Definition nonneg_canonical (f : spec_float) : Prop :=
  match f with
  | S754_zero _ => True
  | S754_finite false m e =>
      -1074 <= e <= 971 /\ Zpos m < 2 ^ 53 /\ (-1074 < e -> 2 ^ 52 <= Zpos m)
  | S754_infinity false => True
  | _ => False
  end.

(** The weight of the value [(mx + lx) * 2^ex] before the overflow test:
    exponent and rounded mantissa, packed as [ord] packs them. *)
Definition round_weight (mx ex : Z) (lx : location) : Z :=
  let n := fexp64 (Zdigits2 mx + ex) - ex in
  (ex + n + 1074) * 2 ^ 52
  + round_key (shift_key (Z.to_nat n) (4 * mx + loc_code lx)).

(** The value of a finite number, as a multiple of [2^-1074]. *)
Definition scaled (f : spec_float) : Z :=
  match f with
  | S754_finite s m e => cond_Zopp s (Zpos m * 2 ^ (e + 1074))
  | _ => 0
  end.

(** A zero or a canonical number of either sign. *)
Definition finite_valid (f : spec_float) : Prop :=
  match f with
  | S754_zero _ => True
  | S754_finite _ m e => bounded prec emax m e = true
  | _ => False
  end.

(** A zero or a canonical positive number. *)
Definition nonneg_finite (f : spec_float) : Prop :=
  match f with
  | S754_zero _ => True
  | S754_finite false m e => bounded prec emax m e = true
  | _ => False
  end.

(** Where the quotient [N / d] lies between two integers. *)
Definition div_loc (N d : Z) : location :=
  if N mod d =? 0 then loc_Exact else loc_Inexact (2 * (N mod d) ?= d).

(** The key of the quotient [N / d]. *)
Definition div_key (N d : Z) : Z := 4 * (N / d) + loc_code (div_loc N d).

(** The weight of the quotient of [X] by the positive number
    [my * 2^ey], computed at the exponent -2148, below that of every
    quotient of two binary64 numbers. *)
Definition quotient_weight (X : spec_float) (my : positive) (ey : Z) : Z :=
  let N := scaled X * 2 ^ (1074 - ey) in
  round_weight (N / Zpos my) (-2148) (div_loc N (Zpos my)).

End Round64.

(** * The exact embedding *)

(** ** Comparisons as propositions *)

Section Comparisons.

Variables x y : Q.

Lemma Qlt_bool_iff : Qlt_bool x y = true <-> x < y.
Proof. unfold Qlt_bool, Qlt. apply Z.ltb_lt. Qed.

Lemma Qlt_bool_false_iff : Qlt_bool x y = false <-> y <= x.
Proof. unfold Qlt_bool, Qle. rewrite Z.ltb_ge. reflexivity. Qed.

Lemma Qle_bool_false_iff : Qle_bool x y = false <-> y < x.
Proof.
  rewrite <- not_true_iff_false, Qle_bool_iff. split.
  - apply Qnot_le_lt.
  - apply Qlt_not_le.
Qed.

Lemma Qeq_bool_false_iff : Qeq_bool x y = false <-> ~ x == y.
Proof. rewrite <- not_true_iff_false, Qeq_bool_iff. reflexivity. Qed.

End Comparisons.

(** Turn every comparison test of the goal into a hypothesis on [Q]. *)
Ltac by_tests :=
  repeat match goal with
  | |- context [Qlt_bool ?x ?y] =>
      let E := fresh "T" in
      destruct (Qlt_bool x y) eqn:E;
      [apply Qlt_bool_iff in E | apply Qlt_bool_false_iff in E]
  | |- context [Qle_bool ?x ?y] =>
      let E := fresh "T" in
      destruct (Qle_bool x y) eqn:E;
      [apply Qle_bool_iff in E | apply Qle_bool_false_iff in E]
  | |- context [Qeq_bool ?x ?y] =>
      let E := fresh "T" in
      destruct (Qeq_bool x y) eqn:E;
      [apply Qeq_bool_iff in E | apply Qeq_bool_false_iff in E]
  end; cbn [orb andb negb].

(** ** The branches of the function *)

Lemma valid_option_accepted (o : string) :
  str_in o ["linear"; "cubic"] = true <-> valid_option o.
Proof.
  unfold str_in, valid_option; cbn [existsb].
  rewrite orb_false_r, orb_true_iff, !String.eqb_eq. reflexivity.
Qed.

Lemma valid_linear : valid_option "linear".
Proof. left; reflexivity. Qed.

Lemma valid_cubic : valid_option "cubic".
Proof. right; reflexivity. Qed.

Section Branches.

Variables ws rp ci r co : Q.
Variable o : string.

(** Once the option is valid the function is its region logic. *)
Lemma wind_turbine_power_valid :
  valid_option o ->
  wind_turbine_power ws rp ci r co o = region_logic ws rp ci r co o.
Proof.
  intros V. unfold wind_turbine_power.
  apply valid_option_accepted in V. rewrite V. reflexivity.
Qed.

Lemma wind_turbine_power_invalid :
  ~ valid_option o ->
  wind_turbine_power ws rp ci r co o
    = Raise (ValueError invalid_option_message).
Proof.
  intros V. unfold wind_turbine_power.
  destruct (str_in o ["linear"; "cubic"]) eqn:E; [| reflexivity].
  apply valid_option_accepted in E. contradiction.
Qed.

Lemma region_logic_idle :
  ws < ci \/ co <= ws -> region_logic ws rp ci r co o = Ok 0.
Proof.
  intros H. unfold region_logic, idle_test.
  by_tests; try reflexivity; lra.
Qed.

Lemma region_logic_plateau :
  ci <= ws -> r <= ws -> ws < co ->
  region_logic ws rp ci r co o = Ok rp.
Proof.
  intros H1 H2 H3. unfold region_logic, idle_test, ramp_test.
  by_tests; try reflexivity; lra.
Qed.

(** The region logic has no [ValueError] of its own. *)
Lemma region_logic_no_value_error (msg : string) :
  region_logic ws rp ci r co o <> Raise (ValueError msg).
Proof.
  unfold region_logic, ramp_branch, truediv.
  destruct (idle_test ws ci co); [discriminate |].
  destruct (ramp_test ws ci r); [| discriminate].
  destruct (o =? "linear").
  - destruct (Qeq_bool (r - ci) 0); discriminate.
  - destruct (o =? "cubic"); [| discriminate].
    destruct (Qeq_bool (r ^ 3) 0); discriminate.
Qed.

End Branches.

(** ** Region 1: idle below cut-in, shut down from cut-out *)

(** C1: with a valid option, a wind speed below cut-in or at or above
    cut-out gives exactly [0.0], whatever the numeric parameters. *)
Theorem idle_or_shutdown_returns_zero (ws rp ci r co : Q) (o : string) :
  valid_option o ->
  ws < ci \/ co <= ws ->
  wind_turbine_power ws rp ci r co o = Ok 0.
Proof.
  intros V H. rewrite wind_turbine_power_valid by assumption.
  apply region_logic_idle. assumption.
Qed.

Lemma idle_or_shutdown_returns_zero_witness :
  valid_option "cubic" /\ (2 < 3 \/ 25 <= 2) /\
  wind_turbine_power 2 15 3 11 25 "cubic" = Ok 0.
Proof.
  assert (V : valid_option "cubic") by (right; reflexivity).
  assert (H : 2 < 3 \/ 25 <= 2) by (left; reflexivity).
  split; [exact V | split; [exact H |]].
  exact (idle_or_shutdown_returns_zero 2 15 3 11 25 "cubic" V H).
Defined.

(** ** Region 3: the plateau *)

(** C2, as stated, fails: the first test wins, so a wind speed in
    [[rated_wind_speed, cut_out_wind_speed)] that is below cut-in (the
    parameters need not be ordered) gives [0.0], not [rated_power]. *)
Lemma plateau_below_cut_in_counterexample :
  valid_option "linear" /\ 5 <= 7 /\ 7 < 25 /\
  wind_turbine_power 7 15 10 5 25 "linear" = Ok 0 /\
  ~ returns (wind_turbine_power 7 15 10 5 25 "linear") 15.
Proof.
  split; [exact valid_linear |].
  split; [discriminate |]. split; [reflexivity |].
  split; [reflexivity |].
  intros (p & E & Hp). vm_compute in E. injection E as <-. discriminate Hp.
Qed.

(** C2, amended: with a valid option and a wind speed that is not below
    cut-in, [rated_wind_speed <= wind_speed < cut_out_wind_speed] gives
    exactly [rated_power]; the [elif] test is false there, so the value
    comes from the [else] branch, also at [wind_speed == rated_wind_speed]. *)
Theorem plateau_returns_rated_power (ws rp ci r co : Q) (o : string) :
  valid_option o ->
  ci <= ws ->
  r <= ws -> ws < co ->
  ramp_test ws ci r = false /\
  wind_turbine_power ws rp ci r co o = Ok rp.
Proof.
  intros V H1 H2 H3. split.
  - unfold ramp_test. by_tests; try reflexivity; lra.
  - rewrite wind_turbine_power_valid by assumption.
    apply region_logic_plateau; assumption.
Qed.

Lemma plateau_returns_rated_power_witness :
  valid_option "cubic" /\ 3 <= 11 /\ 11 <= 11 /\ 11 < 25 /\
  ramp_test 11 3 11 = false /\
  wind_turbine_power 11 15 3 11 25 "cubic" = Ok 15.
Proof.
  assert (V : valid_option "cubic") by (right; reflexivity).
  assert (H1 : 3 <= 11) by discriminate.
  assert (H2 : 11 <= 11) by discriminate.
  assert (H3 : 11 < 25) by reflexivity.
  split; [exact V |]. split; [exact H1 |].
  split; [exact H2 |]. split; [exact H3 |].
  exact (plateau_returns_rated_power 11 15 3 11 25 "cubic" V H1 H2 H3).
Defined.

(** ** Validation of the interpolation option *)

(** The validation makes the read of an unassigned [g_v] unreachable. *)
Lemma wind_turbine_power_no_unbound_local
    (ws rp ci r co : Q) (o name : string) :
  wind_turbine_power ws rp ci r co o <> Raise (UnboundLocalError name).
Proof.
  unfold wind_turbine_power.
  destruct (str_in o ["linear"; "cubic"]) eqn:V; [| discriminate].
  apply valid_option_accepted in V. cbn [negb].
  unfold region_logic, ramp_branch, truediv.
  destruct (idle_test ws ci co); [discriminate |].
  destruct (ramp_test ws ci r); [| discriminate].
  destruct V as [-> | ->]; cbn [String.eqb Ascii.eqb Bool.eqb bind].
  - destruct (Qeq_bool (r - ci) 0); discriminate.
  - destruct (Qeq_bool (r ^ 3) 0); discriminate.
Qed.

(** Example 6 of the [__main__] block. *)
Example invalid_option_example :
  wind_turbine_power_default 5 "invalid"
    = Raise (ValueError invalid_option_message).
Proof. reflexivity. Qed.

(** C5: for every wind speed and all numeric parameters the call raises
    [ValueError] if and only if the option is neither ["linear"] nor
    ["cubic"]; for such an option the outcome is that one [ValueError]
    whatever the numbers are: no value is returned in its place, and it
    is not an outcome of the region logic, which on the same arguments
    returns or raises something else. *)
Theorem value_error_iff_invalid_option (ws rp ci r co : Q) (o : string) :
  ((exists msg, wind_turbine_power ws rp ci r co o = Raise (ValueError msg))
   <-> ~ valid_option o) /\
  (~ valid_option o ->
   wind_turbine_power ws rp ci r co o
     = Raise (ValueError invalid_option_message) /\
   (forall p, wind_turbine_power ws rp ci r co o <> Ok p) /\
   wind_turbine_power ws rp ci r co o <> region_logic ws rp ci r co o).
Proof.
  split.
  - split.
    + intros [msg E] V.
      rewrite wind_turbine_power_valid in E by assumption.
      exact (region_logic_no_value_error _ _ _ _ _ _ _ E).
    + intros V. exists invalid_option_message.
      apply wind_turbine_power_invalid. assumption.
  - intros V. rewrite wind_turbine_power_invalid by assumption.
    split; [reflexivity |]. split; [discriminate |].
    intros E. symmetry in E.
    exact (region_logic_no_value_error _ _ _ _ _ _ _ E).
Qed.

(** ** The examples of the [__main__] block *)

(** C8: with the defaults 15.0, 3.0, 11.0, 25.0 the function gives 7.5 at
    7.0 in linear mode, 15.0 * 343 / 1331 at 7.0 in cubic mode, 0.0 at
    2.0, 15.0 at 11.0 and 0.0 at 26.0 in linear mode. *)
Theorem default_examples :
  returns (wind_turbine_power_default 7 default_interpolation_option) 7.5 /\
  returns (wind_turbine_power_default 7 "cubic") (15 * 343 / 1331) /\
  wind_turbine_power_default 2 default_interpolation_option = Ok 0 /\
  wind_turbine_power_default 11 default_interpolation_option = Ok 15 /\
  wind_turbine_power_default 26 default_interpolation_option = Ok 0.
Proof.
  repeat split; try reflexivity;
    (eexists; split; [vm_compute; reflexivity | reflexivity]).
Qed.

(** ** Further properties that rest on the comparisons *)

(** The tests of the function see only the order of their arguments: a
    common shift leaves them unchanged. *)
Section ShiftedTests.

Variables d x y : Q.




End ShiftedTests.


(** ** Where the option matters *)



(** ** Parameters out of order *)

(** X15: with [rated_wind_speed <= cut_in_wind_speed] the ramp is empty:
    for a valid option the call never interpolates and never raises, also
    with a rated wind speed of zero in cubic mode; it returns [0.0] or
    [rated_power] unchanged. *)
Theorem empty_ramp_is_a_step (ws rp ci r co : Q) (o : string) :
  valid_option o ->
  r <= ci ->
  wind_turbine_power ws rp ci r co o = Ok 0 \/
  wind_turbine_power ws rp ci r co o = Ok rp.
Proof.
  intros V H. rewrite wind_turbine_power_valid by assumption.
  unfold region_logic, idle_test, ramp_test.
  by_tests; try (left; reflexivity); try (right; reflexivity); lra.
Qed.

Lemma empty_ramp_is_a_step_witness :
  valid_option "cubic" /\ 0 <= 3 /\
  (wind_turbine_power 7 15 3 0 25 "cubic" = Ok 0 \/
   wind_turbine_power 7 15 3 0 25 "cubic" = Ok 15).
Proof.
  assert (V : valid_option "cubic") by (right; reflexivity).
  assert (H : 0 <= 3) by discriminate.
  split; [exact V |]. split; [exact H |].
  exact (empty_ramp_is_a_step 7 15 3 0 25 "cubic" V H).
Defined.

(** * The binary64 embedding *)

Import Floats.

(** ** Order and rounding of [SpecFloat] *)

Section SpecCompare.

Local Open Scope Z_scope.

Lemma SFcompare_swap (a b : spec_float) :
  SFcompare b a = option_map CompOpp (SFcompare a b).
Proof.
  destruct a as [sa | sa | | sa ma ea], b as [sb | sb | | sb mb eb];
    try destruct sa; try destruct sb; try reflexivity; cbn [SFcompare option_map].
  all: rewrite (Z.compare_antisym ea eb).
  all: destruct (ea ?= eb)%Z; cbn [CompOpp]; try reflexivity.
  all: rewrite (Pos.compare_cont_antisym ma mb Eq); reflexivity.
Qed.

Lemma SFcompare_trans (a b c : spec_float) :
  SFcompare a b = Some Lt \/ SFcompare a b = Some Eq ->
  SFcompare b c = Some Lt ->
  SFcompare a c = Some Lt.
Proof.
  destruct a as [sa | sa | | sa ma ea], b as [sb | sb | | sb mb eb],
    c as [sc | sc | | sc mc ec];
    try destruct sa; try destruct sb; try destruct sc;
    cbn [SFcompare]; intros [H | H] H'; try discriminate; try reflexivity;
    revert H H'; change (Pos.compare_cont Eq) with Pos.compare;
    destruct (Z.compare_spec ea eb), (Z.compare_spec eb ec),
      (Z.compare_spec ea ec); try lia;
    try destruct (Pos.compare_spec ma mb); try destruct (Pos.compare_spec mb mc);
    try destruct (Pos.compare_spec ma mc);
    cbn [CompOpp]; intros; try discriminate; try reflexivity; try lia.
Qed.

End SpecCompare.

Section Digits.

Local Open Scope Z_scope.

Lemma digits2_bounds (m : positive) :
  2 ^ (Zpos (digits2_pos m) - 1) <= Zpos m < 2 ^ Zpos (digits2_pos m).
Proof.
  induction m as [p IH | p IH |]; cbn [digits2_pos].
  - rewrite Pos2Z.inj_succ, Z.pow_succ_r by lia.
    replace (Z.succ (Zpos (digits2_pos p)) - 1)
      with (Z.succ (Zpos (digits2_pos p) - 1)) by lia.
    rewrite Z.pow_succ_r by lia. lia.
  - rewrite Pos2Z.inj_succ, Z.pow_succ_r by lia.
    replace (Z.succ (Zpos (digits2_pos p)) - 1)
      with (Z.succ (Zpos (digits2_pos p) - 1)) by lia.
    rewrite Z.pow_succ_r by lia. lia.
  - cbn. lia.
Qed.

Lemma iter_xO_value (m d : positive) :
  Zpos (Pos.iter xO m d) = Zpos m * 2 ^ Zpos d.
Proof.
  induction d as [| d IH] using Pos.peano_ind.
  - cbn. lia.
  - rewrite Pos.iter_succ, Pos2Z.inj_succ, Z.pow_succ_r by lia.
    rewrite Pos2Z.inj_xO, IH. lia.
Qed.

Lemma shl_align_value (m : positive) (e e' : Z) :
  e' <= e -> Zpos (fst (shl_align m e e')) = Zpos m * 2 ^ (e - e').
Proof.
  intros H. unfold shl_align.
  destruct (e' - e) as [| d | d] eqn:E.
  - replace (e - e') with 0 by lia. cbn [fst]. lia.
  - lia.
  - cbn [fst]. rewrite iter_xO_value. replace (e - e') with (Zpos d) by lia.
    reflexivity.
Qed.

End Digits.

Section Canonical.

Local Open Scope Z_scope.

(** What [valid_binary] says of a finite binary64 number. *)
Lemma bounded_spec (m : positive) (e : Z) :
  bounded prec emax m e = true ->
  -1074 <= e <= 971 /\ Zpos (digits2_pos m) <= 53 /\
  (-1074 < e -> Zpos (digits2_pos m) = 53).
Proof.
  unfold bounded, canonical_mantissa, fexp, SpecFloat.emin, prec, emax.
  rewrite andb_true_iff, Z.eqb_eq, Z.leb_le.
  change IntDef.Z.max with Z.max. lia.
Qed.

(** Two canonical numbers of the same sign compare as their aligned
    mantissas do. *)
Lemma aligned_lt (m1 m2 : positive) (e1 e2 : Z) :
  bounded prec emax m1 e1 = true ->
  bounded prec emax m2 e2 = true ->
  e1 < e2 \/ (e1 = e2 /\ (m1 < m2)%positive) ->
  Zpos (fst (shl_align m1 e1 (Z.min e1 e2)))
  < Zpos (fst (shl_align m2 e2 (Z.min e1 e2))).
Proof.
  intros B1 B2 H.
  apply bounded_spec in B1. apply bounded_spec in B2.
  rewrite !shl_align_value by lia.
  destruct H as [H | [-> H]].
  - rewrite Z.min_l by lia. rewrite Z.sub_diag, Z.pow_0_r, Z.mul_1_r.
    destruct B1 as (R1 & D1 & _). destruct B2 as (_ & _ & D2).
    specialize (D2 ltac:(lia)).
    pose proof (digits2_bounds m1) as [_ U1].
    pose proof (digits2_bounds m2) as [L2 _].
    rewrite D2 in L2.
    assert (2 ^ Zpos (digits2_pos m1) <= 2 ^ 53)
      by (apply Z.pow_le_mono_r; lia).
    assert (2 ^ 1 <= 2 ^ (e2 - e1)) by (apply Z.pow_le_mono_r; lia).
    change (2 ^ 53) with (2 * 2 ^ (53 - 1)) in *.
    change (2 ^ 1) with 2 in *.
    nia.
  - rewrite Z.min_id, Z.sub_diag, Z.pow_0_r. lia.
Qed.

End Canonical.

Section Rounding.

Local Open Scope Z_scope.

Lemma shr_1_digits (r : shr_record) :
  1 < Zdigits2 (shr_m r) -> 0 < shr_m r ->
  0 < shr_m (shr_1 r) /\
  Zdigits2 (shr_m (shr_1 r)) = Zdigits2 (shr_m r) - 1.
Proof.
  destruct r as [m rb sb]. cbn [shr_m].
  destruct m as [| [p | p |] | p];
    cbn [shr_1 shr_m Zdigits2 digits2_pos orb];
    rewrite ?Pos2Z.inj_succ; lia.
Qed.

Lemma iter_shr_1_digits (n : positive) :
  forall r : shr_record,
    Zpos n < Zdigits2 (shr_m r) -> 0 < shr_m r ->
    0 < shr_m (iter_pos shr_1 n r) /\
    Zdigits2 (shr_m (iter_pos shr_1 n r)) = Zdigits2 (shr_m r) - Zpos n.
Proof.
  induction n as [n IH | n IH |]; intros r D P; cbn [iter_pos].
  - destruct (shr_1_digits r) as [P1 D1]; [lia | assumption |].
    destruct (IH (shr_1 r)) as [P2 D2]; [lia | assumption |].
    destruct (IH (iter_pos shr_1 n (shr_1 r))) as [P3 D3];
      [lia | assumption |].
    split; [assumption | lia].
  - destruct (IH r) as [P2 D2]; [lia | assumption |].
    destruct (IH (iter_pos shr_1 n r)) as [P3 D3]; [lia | assumption |].
    split; [assumption | lia].
  - destruct (shr_1_digits r) as [P1 D1]; [lia | assumption |].
    split; [assumption | lia].
Qed.

Lemma shr_m_of_loc (m : Z) (l : location) :
  shr_m (shr_record_of_loc m l) = m.
Proof. destruct l as [| []]; reflexivity. Qed.

(** Shifting a positive mantissa to its canonical exponent keeps it
    positive, when the exponent is not below [emin]. *)
Lemma shr_fexp_pos (m : positive) (e : Z) (l : location) :
  -1074 <= e ->
  0 < shr_m (fst (shr_fexp prec emax (Zpos m) e l)) /\
  -1074 <= snd (shr_fexp prec emax (Zpos m) e l).
Proof.
  intros He. unfold shr_fexp, shr, fexp, SpecFloat.emin, prec, emax.
  change IntDef.Z.max with Z.max. cbn [Zdigits2].
  destruct (Z.max (Zpos (digits2_pos m) + e - 53) (3 - 1024 - 53) - e)
    as [| n | n] eqn:E; cbn [fst snd].
  - rewrite shr_m_of_loc. lia.
  - destruct (iter_shr_1_digits n (shr_record_of_loc (Zpos m) l)) as [P _];
      rewrite ?shr_m_of_loc; cbn [Zdigits2]; try lia.
  - rewrite shr_m_of_loc. lia.
Qed.

Lemma round_nearest_even_pos (m : Z) (l : location) :
  0 < m -> 0 < round_nearest_even m l.
Proof.
  intros H. destruct l as [| []]; cbn [round_nearest_even]; try lia.
  destruct (Z.even m); lia.
Qed.

Lemma binary_round_aux_pos (m : positive) (e : Z) (l : location) :
  -1074 <= e ->
  Binary64.positive_result (binary_round_aux prec emax false (Zpos m) e l).
Proof.
  intros He. unfold binary_round_aux.
  destruct (shr_fexp_pos m e l He) as [P1 E1].
  destruct (shr_fexp prec emax (Zpos m) e l) as [mrs' e'].
  cbn [fst snd] in P1, E1.
  pose proof (round_nearest_even_pos (shr_m mrs') (loc_of_shr_record mrs') P1)
    as P2.
  destruct (round_nearest_even (shr_m mrs') (loc_of_shr_record mrs'))
    as [| m2 | m2]; try lia.
  destruct (shr_fexp_pos m2 e' loc_Exact E1) as [P3 _].
  destruct (shr_fexp prec emax (Zpos m2) e' loc_Exact) as [mrs'' e''].
  cbn [fst] in P3.
  destruct (shr_m mrs'') as [| m3 | m3]; try lia.
  destruct (e'' <=? emax - prec); exact I.
Qed.

Lemma binary_round_pos (m : positive) (e : Z) :
  -1074 <= e -> Binary64.positive_result (binary_round prec emax false m e).
Proof.
  intros He. unfold binary_round.
  destruct (shl_align m e (fexp prec emax (Zpos (digits2_pos m) + e)))
    as [mz ez] eqn:A.
  apply binary_round_aux_pos.
  unfold shl_align in A.
  destruct (fexp prec emax (Zpos (digits2_pos m) + e) - e) eqn:E;
    injection A as <- <-; try lia.
  unfold fexp, SpecFloat.emin, prec, emax.
  change IntDef.Z.max with Z.max. lia.
Qed.

End Rounding.

Section Subtraction.

Local Open Scope Z_scope.

Lemma binary_normalize_pos (d e : Z) :
  0 < d -> -1074 <= e ->
  Binary64.positive_result (binary_normalize prec emax d e false).
Proof.
  intros Hd He. destruct d as [| d | d]; try lia.
  cbn [binary_normalize]. apply binary_round_pos. exact He.
Qed.

(** The difference of two numbers, the larger first, is positive: it is
    never rounded to zero. *)
Lemma SFsub_pos (X Y : spec_float) :
  valid_binary X = true -> valid_binary Y = true ->
  SFcompare X Y = Some Lt ->
  Binary64.positive_result (SF64sub Y X).
Proof.
  destruct X as [sx | sx | | sx mx ex], Y as [sy | sy | | sy my ey];
    try destruct sx; try destruct sy;
    cbn [SFcompare valid_binary]; intros VX VY C;
    try discriminate C; try exact I.
  all: unfold SF64sub, SFsub; cbn [cond_Zopp negb].
  all: change IntDef.Z.min with Z.min.
  all: pose proof (bounded_spec _ _ VX) as (RX & _).
  all: pose proof (bounded_spec _ _ VY) as (RY & _).
  all: apply binary_normalize_pos; [| lia].
  - (* both negative *)
    assert (L : ey < ex \/ (ey = ex /\ (my < mx)%positive)).
    { revert C. change (Pos.compare_cont Eq) with Pos.compare.
      destruct (Z.compare_spec ex ey); try discriminate; try lia.
      destruct (Pos.compare_spec mx my); cbn [CompOpp];
        try discriminate; lia. }
    pose proof (aligned_lt my mx ey ex VY VX L). lia.
  - (* X negative, Y positive *)
    lia.
  - (* both positive *)
    assert (L : ex < ey \/ (ex = ey /\ (mx < my)%positive)).
    { revert C. change (Pos.compare_cont Eq) with Pos.compare.
      destruct (Z.compare_spec ex ey); try discriminate; try lia.
      destruct (Pos.compare_spec mx my); try discriminate; lia. }
    pose proof (aligned_lt mx my ex ey VX VY L).
    rewrite (Z.min_comm ey ex). lia.
Qed.

End Subtraction.

Section Units.

Local Open Scope Z_scope.

(** A finite number other than zero divided by itself is one. *)
Lemma SFdiv_self (s : bool) (m : positive) (e : Z) :
  SF64div (S754_finite s m e) (S754_finite s m e)
  = S754_finite false 4503599627370496 (-52).
Proof.
  unfold SF64div, SFdiv, SFdiv_core_binary. cbn [Zdigits2].
  replace (Zpos (digits2_pos m) + e - (Zpos (digits2_pos m) + e)) with 0
    by lia.
  rewrite Z.sub_diag. cbn [fexp]. 
  change (IntDef.Z.min (fexp prec emax 0) 0) with (-53).
  change (0 - -53) with 53.
  cbv iota.
  assert (E : Z.div_eucl (Z.shiftl (Zpos m) 53) (Zpos m)
              = (9007199254740992, 0)).
  { pose proof (Z.div_eucl_eq (Z.shiftl (Zpos m) 53) (Zpos m) ltac:(lia)) as Q.
    pose proof (Z.mod_pos_bound (Z.shiftl (Zpos m) 53) (Zpos m) ltac:(lia)) as R.
    unfold Z.modulo in R.
    destruct (Z.div_eucl (Z.shiftl (Zpos m) 53) (Zpos m)) as [q r].
    rewrite Z.shiftl_mul_pow2 in Q by lia.
    change (2 ^ 53) with 9007199254740992 in Q.
    assert (q = 9007199254740992) by nia.
    assert (r = 0) by nia. congruence. }
  rewrite E.
  assert (L : new_location (Zpos m) 0 = loc_Exact).
  { unfold new_location, new_location_even, new_location_odd.
    destruct (Z.even (Zpos m)); reflexivity. }
  rewrite L. destruct s; reflexivity.
Qed.

(** One times a number is that number. *)
Lemma SFmul_1_l (X : spec_float) :
  valid_binary X = true ->
  SF64mul (S754_finite false 4503599627370496 (-52)) X = X.
Proof.
  destruct X as [s | s | | s m e]; try reflexivity.
  cbn [valid_binary]. intros V.
  pose proof (bounded_spec _ _ V) as (R & D & N).
  unfold bounded in V. apply andb_true_iff in V. destruct V as [C B].
  unfold canonical_mantissa in C. apply Z.eqb_eq in C.
  unfold SF64mul, SFmul. cbn [xorb].
  unfold binary_round_aux.
  assert (S1 : shr_fexp prec emax (Zpos (4503599627370496 * m)) (-52 + e)
                 loc_Exact
               = (Build_shr_record (Zpos m) false false, e)).
  { unfold shr_fexp. cbn [Zdigits2].
    assert (Dg : Zpos (digits2_pos (4503599627370496 * m))
                 = Zpos (digits2_pos m) + 52).
    { cbn [Pos.mul digits2_pos]. rewrite !Pos2Z.inj_succ. lia. }
    rewrite Dg.
    replace (Zpos (digits2_pos m) + 52 + (-52 + e))
      with (Zpos (digits2_pos m) + e) by lia.
    rewrite C. replace (e - (-52 + e)) with 52 by lia.
    cbn [shr shr_record_of_loc]. 
    replace (-52 + e + 52) with e by lia.
    cbn [Pos.mul iter_pos shr_1 orb]. reflexivity. }
  rewrite S1. cbn [shr_m loc_of_shr_record round_nearest_even].
  assert (S2 : shr_fexp prec emax (Zpos m) e loc_Exact
               = (Build_shr_record (Zpos m) false false, e)).
  { unfold shr_fexp. cbn [Zdigits2]. rewrite C, Z.sub_diag. reflexivity. }
  rewrite S2. cbn [shr_m]. rewrite B. reflexivity.
Qed.

End Units.

Section SpecCompareMore.

Local Open Scope Z_scope.

Lemma SFcompare_refl (X : spec_float) :
  X <> S754_nan -> SFcompare X X = Some Eq.
Proof.
  destruct X as [s | s | | s m e]; try destruct s; cbn [SFcompare];
    intros N; try reflexivity; try congruence.
  all: rewrite Z.compare_refl, Pos.compare_cont_refl; reflexivity.
Qed.

Lemma SFcompare_None (X Y : spec_float) :
  SFcompare X Y = None <-> X = S754_nan \/ Y = S754_nan.
Proof.
  destruct X as [sx | sx | | sx mx ex], Y as [sy | sy | | sy my ey];
    cbn [SFcompare]; split; intros H;
    try discriminate; try reflexivity; try (left; reflexivity);
    try (right; reflexivity); try (destruct H; discriminate).
Qed.

Lemma SFcompare_trans_le (a b c : spec_float) :
  SFcompare a b = Some Lt \/ SFcompare a b = Some Eq ->
  SFcompare b c = Some Lt \/ SFcompare b c = Some Eq ->
  SFcompare a c = Some Lt \/ SFcompare a c = Some Eq.
Proof.
  destruct a as [sa | sa | | sa ma ea], b as [sb | sb | | sb mb eb],
    c as [sc | sc | | sc mc ec];
    try destruct sa; try destruct sb; try destruct sc;
    cbn [SFcompare]; intros [H | H] [H' | H']; try discriminate;
    try (left; reflexivity); try (right; reflexivity);
    revert H H'; change (Pos.compare_cont Eq) with Pos.compare;
    destruct (Z.compare_spec ea eb), (Z.compare_spec eb ec),
      (Z.compare_spec ea ec); try lia;
    try destruct (Pos.compare_spec ma mb); try destruct (Pos.compare_spec mb mc);
    try destruct (Pos.compare_spec ma mc);
    cbn [CompOpp]; intros; try discriminate;
    try (left; reflexivity); try (right; reflexivity); try lia.
Qed.

End SpecCompareMore.

(** ** Rounding to nearest even is monotone

    [SpecFloat] rounds a value given by a mantissa, an exponent and a
    location: [binary_round_aux] shifts the mantissa right to the
    canonical exponent, keeping a round bit and a sticky bit, rounds to
    nearest even, shifts once more if the rounding carried into the next
    binade, and tests for overflow.  The lemmas below follow these steps
    on keys.  The result is characterised by its position [ord] in the
    order of the binary64 numbers, which is the [round_weight] of the
    value, cut at the position of infinity ([binary_round_aux_ord]).  The
    weight does not depend on the exponent at which the value is written
    ([round_weight_align], [round_weight_div_align]) and it is monotone
    in the value ([round_weight_mono]).  Hence [SFsub], [SFmul] and
    [SFdiv] are monotone where their results are not negative
    ([SFsub_mono], [SFmul_mono], [SFdiv_mono]). *)

Import Round64.

(** Linear arithmetic with divisions and remainders by constants. *)
Ltac zdm := Z.to_euclidean_division_equations; lia.

(** Case analysis on the tests [_ =? 0] of the goal. *)
Ltac eqb0 :=
  repeat match goal with
         | |- context [(?a =? 0)%Z] => destruct (Z.eqb_spec a 0)
         end.

(** The two powers of two that bound a 53-bit mantissa, as numerals. *)
Ltac consts :=
  change (2 ^ 53)%Z with 9007199254740992%Z in *;
  change (2 ^ 52)%Z with 4503599627370496%Z in *.

(** Evaluation of the location codes and of their tests. *)
Ltac codes :=
  cbn [loc_code];
  change (0 =? 0)%Z with true; change (1 =? 0)%Z with false;
  change (2 =? 0)%Z with false; change (3 =? 0)%Z with false; cbv iota.

(** *** Mantissas with their round and sticky bits *)

Section Keys.

Local Open Scope Z_scope.

Lemma key_shr_1 (r : shr_record) :
  0 <= shr_m r -> key (shr_1 r) = sticky_half (key r).
Proof.
  destruct r as [m rb sb]. unfold key, sticky_half. cbn [shr_m shr_r shr_s].
  intros P.
  destruct m as [| [q | q |] | q]; try lia;
    destruct rb, sb; cbn [shr_1 shr_m shr_r shr_s orb];
    try rewrite Pos2Z.inj_xI; try rewrite Pos2Z.inj_xO;
    eqb0; zdm.
Qed.

Lemma shr_1_nonneg (r : shr_record) : 0 <= shr_m r -> 0 <= shr_m (shr_1 r).
Proof.
  destruct r as [m rb sb]. cbn [shr_m].
  destruct m as [| [q | q |] | q]; cbn; lia.
Qed.

Lemma sticky_half_mono (k k' : Z) : k <= k' -> sticky_half k <= sticky_half k'.
Proof. unfold sticky_half. intros H. eqb0; zdm. Qed.

Lemma sticky_half_quot (k : Z) : sticky_half k / 4 = k / 4 / 2.
Proof. unfold sticky_half. eqb0; zdm. Qed.

Lemma sticky_half_nonneg (k : Z) : 0 <= k -> 0 <= sticky_half k.
Proof. unfold sticky_half. intros H. eqb0; zdm. Qed.

Lemma sticky_half_exact (j : Z) : sticky_half (4 * (2 * j)) = 4 * j.
Proof. unfold sticky_half. eqb0; zdm. Qed.

Lemma shift_key_S (n : nat) (k : Z) :
  shift_key (S n) k = shift_key n (sticky_half k).
Proof. unfold shift_key. rewrite Nat.iter_succ_r. reflexivity. Qed.

Lemma shift_key_add (a b : nat) (k : Z) :
  shift_key (a + b) k = shift_key a (shift_key b k).
Proof. unfold shift_key. apply Nat.iter_add. Qed.

Lemma shift_key_mono (n : nat) (k k' : Z) :
  k <= k' -> shift_key n k <= shift_key n k'.
Proof.
  induction n as [| n IH]; intros H; [exact H |].
  change (sticky_half (shift_key n k) <= sticky_half (shift_key n k')).
  apply sticky_half_mono, IH, H.
Qed.

Lemma shift_key_nonneg (n : nat) (k : Z) : 0 <= k -> 0 <= shift_key n k.
Proof.
  induction n as [| n IH]; intros H; [exact H |].
  change (0 <= sticky_half (shift_key n k)).
  apply sticky_half_nonneg, IH, H.
Qed.

Lemma shift_key_quot (n : nat) (k : Z) :
  shift_key n k / 4 = k / 4 / 2 ^ Z.of_nat n.
Proof.
  induction n as [| n IH].
  - cbn. rewrite Z.div_1_r. reflexivity.
  - change (shift_key (S n) k) with (sticky_half (shift_key n k)).
    rewrite sticky_half_quot.
    rewrite IH, Nat2Z.inj_succ, Z.pow_succ_r by lia.
    rewrite Z.div_div by lia. f_equal. lia.
Qed.

Lemma shift_key_exact (n : nat) (j : Z) :
  shift_key n (4 * (2 ^ Z.of_nat n * j)) = 4 * j.
Proof.
  revert j. induction n as [| n IH]; intros j.
  - change (4 * (2 ^ 0 * j) = 4 * j). rewrite Z.pow_0_r. lia.
  - rewrite shift_key_S, Nat2Z.inj_succ.
    rewrite Z.pow_succ_r by apply Nat2Z.is_nonneg.
    replace (4 * (2 * 2 ^ Z.of_nat n * j)) with (4 * (2 * (2 ^ Z.of_nat n * j)))
      by (rewrite <- !Z.mul_assoc; reflexivity).
    rewrite sticky_half_exact. apply IH.
Qed.

Lemma iter_pos_nat {A : Type} (f : A -> A) (n : positive) (x : A) :
  iter_pos f n x = Nat.iter (Pos.to_nat n) f x.
Proof.
  revert x. induction n as [n IH | n IH |]; intros x; cbn [iter_pos].
  - rewrite !IH.
    replace (Pos.to_nat n~1) with (Pos.to_nat n + (Pos.to_nat n + 1))%nat by lia.
    rewrite !Nat.iter_add. reflexivity.
  - rewrite !IH.
    replace (Pos.to_nat n~0) with (Pos.to_nat n + Pos.to_nat n)%nat by lia.
    rewrite Nat.iter_add. reflexivity.
  - reflexivity.
Qed.

Lemma key_iter (n : nat) (r : shr_record) :
  0 <= shr_m r ->
  key (Nat.iter n shr_1 r) = shift_key n (key r) /\ 0 <= shr_m (Nat.iter n shr_1 r).
Proof.
  intros P. induction n as [| n [IH1 IH2]]; [split; [reflexivity | exact P] |].
  change (Nat.iter (S n) shr_1 r) with (shr_1 (Nat.iter n shr_1 r)).
  change (shift_key (S n) (key r)) with (sticky_half (shift_key n (key r))).
  split.
  - rewrite key_shr_1 by exact IH2. f_equal. exact IH1.
  - apply shr_1_nonneg, IH2.
Qed.

Lemma key_record_of_loc (m : Z) (l : location) :
  key (shr_record_of_loc m l) = 4 * m + loc_code l.
Proof.
  destruct l as [| []]; unfold key, loc_code;
    cbn [shr_record_of_loc shr_m shr_r shr_s]; lia.
Qed.

Lemma shr_m_key (r : shr_record) : shr_m r = key r / 4.
Proof. destruct r as [m [] []]; unfold key; cbn [shr_m shr_r shr_s]; zdm. Qed.

Lemma round_key_spec (r : shr_record) :
  round_nearest_even (shr_m r) (loc_of_shr_record r) = round_key (key r).
Proof.
  destruct r as [m rb sb]. unfold round_key, key. cbn [shr_m shr_r shr_s].
  assert (Q : forall c, 0 <= c < 4 -> (4 * m + c) / 4 = m /\ (4 * m + c) mod 4 = c)
    by (intros c Hc; zdm).
  destruct rb, sb; cbn [loc_of_shr_record round_nearest_even].
  - destruct (Q 3 ltac:(lia)) as [Q1 Q2].
    replace (4 * m + 2 + 1) with (4 * m + 3) by lia. rewrite Q1, Q2. reflexivity.
  - destruct (Q 2 ltac:(lia)) as [Q1 Q2].
    replace (4 * m + 2 + 0) with (4 * m + 2) by lia. rewrite Q1, Q2.
    cbn. destruct (Z.even m); reflexivity.
  - destruct (Q 1 ltac:(lia)) as [Q1 Q2].
    replace (4 * m + 0 + 1) with (4 * m + 1) by lia. rewrite Q1, Q2. reflexivity.
  - destruct (Q 0 ltac:(lia)) as [Q1 Q2].
    replace (4 * m + 0 + 0) with (4 * m + 0) by lia. rewrite Q1, Q2. reflexivity.
Qed.

Lemma round_key_bounds (k : Z) : k / 4 <= round_key k <= k / 4 + 1.
Proof.
  unfold round_key.
  destruct (k mod 4) as [| [[|[]|]|[|[]|]|] |]; destruct (Z.even (k / 4)); lia.
Qed.

Lemma round_key_exact (m : Z) : round_key (4 * m) = m.
Proof.
  unfold round_key.
  replace ((4 * m) mod 4) with 0 by zdm. zdm.
Qed.

Lemma round_key_mono (k k' : Z) : k <= k' -> round_key k <= round_key k'.
Proof.
  intros H. unfold round_key.
  assert (B : 0 <= k mod 4 < 4 /\ 0 <= k' mod 4 < 4) by zdm.
  assert (D : k = 4 * (k / 4) + k mod 4 /\ k' = 4 * (k' / 4) + k' mod 4) by zdm.
  destruct (Z.even (k / 4)) eqn:E1; destruct (Z.even (k' / 4)) eqn:E2;
  destruct (k mod 4) as [| [[|[]|]|[|[]|]|] |];
  destruct (k' mod 4) as [| [[|[]|]|[|[]|]|] |]; try lia.
  all: destruct (Z.eq_dec (k / 4) (k' / 4)) as [Q | Q];
       [rewrite Q in E1; congruence | lia].
Qed.

End Keys.

(** *** What [binary_round_aux] returns *)

Section RoundAux.

Local Open Scope Z_scope.

Lemma fexp64_eq (z : Z) : fexp prec emax z = fexp64 z.
Proof. reflexivity. Qed.

Lemma Zdigits2_bounds (m : Z) :
  0 < m -> 2 ^ (Zdigits2 m - 1) <= m < 2 ^ Zdigits2 m.
Proof.
  destruct m as [| p | p]; try lia. intros _. apply digits2_bounds.
Qed.

Lemma Zdigits2_nonneg (m : Z) : 0 <= Zdigits2 m.
Proof. destruct m; cbn; lia. Qed.

Lemma Zdigits2_pos (m : Z) : 0 < m -> 0 < Zdigits2 m.
Proof. destruct m; cbn; lia. Qed.

Lemma Zdigits2_le (m : Z) (k : Z) : 0 < m -> m < 2 ^ k -> 0 <= k -> Zdigits2 m <= k.
Proof.
  intros P U K. pose proof (Zdigits2_bounds m P) as [L _].
  pose proof (Zdigits2_pos m P).
  destruct (Z.le_gt_cases (Zdigits2 m) k) as [Q | Q]; [exact Q |].
  assert (2 ^ k <= 2 ^ (Zdigits2 m - 1)) by (apply Z.pow_le_mono_r; lia). lia.
Qed.

Lemma Zdigits2_ge (m : Z) (k : Z) : 2 ^ k <= m -> 0 <= k -> k + 1 <= Zdigits2 m.
Proof.
  intros L K.
  assert (P : 0 < m) by (pose proof (Z.pow_pos_nonneg 2 k); lia).
  pose proof (Zdigits2_bounds m P) as [_ U].
  pose proof (Zdigits2_pos m P).
  destruct (Z.le_gt_cases (k + 1) (Zdigits2 m)) as [Q | Q]; [exact Q |].
  assert (2 ^ Zdigits2 m <= 2 ^ k) by (apply Z.pow_le_mono_r; lia). lia.
Qed.

Lemma Zdigits2_mono (m m' : Z) : 0 <= m <= m' -> Zdigits2 m <= Zdigits2 m'.
Proof.
  intros [P H]. destruct (Z.eq_dec m 0) as [-> | N].
  - apply Zdigits2_nonneg.
  - pose proof (Zdigits2_bounds m ltac:(lia)) as [L _].
    pose proof (Zdigits2_pos m ltac:(lia)).
    pose proof (Zdigits2_ge m' (Zdigits2 m - 1) ltac:(lia) ltac:(lia)). lia.
Qed.

Lemma shr_fexp_key (mx ex : Z) (lx : location) :
  0 <= mx ->
  key (fst (shr_fexp prec emax mx ex lx))
  = shift_key (Z.to_nat (fexp64 (Zdigits2 mx + ex) - ex)) (4 * mx + loc_code lx)
  /\ snd (shr_fexp prec emax mx ex lx)
     = ex + Z.max (fexp64 (Zdigits2 mx + ex) - ex) 0.
Proof.
  intros P. unfold shr_fexp, shr. rewrite fexp64_eq.
  destruct (fexp64 (Zdigits2 mx + ex) - ex) as [| p | p]; cbn [fst snd].
  - rewrite key_record_of_loc. split; [reflexivity | lia].
  - rewrite iter_pos_nat.
    destruct (key_iter (Pos.to_nat p) (shr_record_of_loc mx lx)) as [K _];
      [rewrite shr_m_of_loc; exact P |].
    rewrite K, key_record_of_loc. split; [reflexivity | lia].
  - rewrite key_record_of_loc. split; [reflexivity | lia].
Qed.

(** The mantissa at the canonical exponent has at most 53 digits, and
    exactly 53 above the smallest exponent. *)
Lemma shifted_mantissa_bounds (mx ex : Z) :
  0 <= mx ->
  let n := fexp64 (Zdigits2 mx + ex) - ex in
  0 <= n ->
  0 <= mx / 2 ^ n < 2 ^ 53 /\ (-1074 < ex + n -> 2 ^ 52 <= mx / 2 ^ n).
Proof.
  intros P n N. unfold fexp64 in n.
  assert (Q : 0 < 2 ^ n) by (apply Z.pow_pos_nonneg; lia).
  destruct (Z.eq_dec mx 0) as [-> | NZ].
  - rewrite Z.div_0_l by lia. cbn [Zdigits2] in n. split; [lia |].
    subst n. lia.
  - pose proof (Zdigits2_bounds mx ltac:(lia)) as [L U].
    pose proof (Zdigits2_pos mx ltac:(lia)) as D.
    split; [split |].
    + apply Z.div_pos; lia.
    + apply Z.div_lt_upper_bound; [lia |].
      assert (2 ^ Zdigits2 mx <= 2 ^ (n + 53))
        by (apply Z.pow_le_mono_r; subst n; lia).
      rewrite Z.pow_add_r in * by lia. lia.
    + intros E. apply Z.div_le_lower_bound; [lia |].
      assert (En : n = Zdigits2 mx - 53) by (subst n; lia).
      replace (Zdigits2 mx - 1) with (n + 52) in L by lia.
      rewrite Z.pow_add_r in L by lia. lia.
Qed.

Lemma binary_round_aux_ord (mx ex : Z) (lx : location) :
  0 <= mx -> 0 <= fexp64 (Zdigits2 mx + ex) - ex ->
  nonneg_canonical (binary_round_aux prec emax false mx ex lx) /\
  ord (binary_round_aux prec emax false mx ex lx)
  = Z.min (2047 * 2 ^ 52) (round_weight mx ex lx).
Proof.
  intros P N. unfold round_weight, binary_round_aux.
  destruct (shr_fexp_key mx ex lx P) as [K1 E1].
  destruct (shifted_mantissa_bounds mx ex P N) as [[B0 B1] B2].
  set (n := fexp64 (Zdigits2 mx + ex) - ex) in *.
  destruct (shr_fexp prec emax mx ex lx) as [mrs' e'].
  cbn [fst snd] in K1, E1.
  rewrite round_key_spec, K1.
  set (k1 := shift_key (Z.to_nat n) (4 * mx + loc_code lx)) in *.
  assert (M1 : k1 / 4 = mx / 2 ^ n).
  { unfold k1. rewrite shift_key_quot, Z2Nat.id by lia.
    f_equal. destruct lx as [| []]; cbn [loc_code]; zdm. }
  pose proof (round_key_bounds k1) as R. rewrite M1 in R.
  set (m2 := round_key k1) in *.
  assert (E1' : e' = ex + n) by lia. clear E1.
  assert (Ge : -1074 <= e') by (unfold n, fexp64 in *; lia).
  rewrite <- E1'. rewrite <- E1' in B2.
  assert (P2 : 0 <= m2) by lia.
  destruct (shr_fexp_key m2 e' loc_Exact P2) as [K2 E2].
  destruct (shr_fexp prec emax m2 e' loc_Exact) as [mrs'' e''].
  cbn [fst snd] in K2, E2. rewrite shr_m_key, K2, shift_key_quot.
  cbn [loc_code]. rewrite Z.add_0_r.
  replace (4 * m2 / 4) with m2 by zdm.
  destruct (Z.eq_dec m2 0) as [Z0 | NZ].
  - (* rounded to zero *)
    rewrite Z0. rewrite Z.div_0_l
      by (apply Z.pow_nonzero; [lia | apply Nat2Z.is_nonneg]).
    cbn [nonneg_canonical ord]. split; [exact I |].
    assert (e' = -1074) by lia. subst e'. lia.
  - destruct (Z.eq_dec m2 (2 ^ 53)) as [C | NC].
    + (* carry into the next binade *)
      rewrite C in *. change (Zdigits2 (2 ^ 53)) with 54 in *.
      assert (N2 : fexp64 (54 + e') - e' = 1) by (unfold fexp64; lia).
      rewrite N2 in *. change (Z.to_nat 1) with 1%nat.
      change (2 ^ 53 / 2 ^ Z.of_nat 1) with (Zpos (4503599627370496)).
      rewrite E2. change (Z.max 1 0) with 1.
      change (emax - prec) with 971.
      destruct (Z.leb_spec (e' + 1) 971) as [O | O];
        cbn [nonneg_canonical ord]; split; try exact I; try lia.
    + assert (U2 : m2 < 2 ^ 53) by lia.
      pose proof (Zdigits2_le m2 53 ltac:(lia) U2 ltac:(lia)) as D2.
      assert (N2 : fexp64 (Zdigits2 m2 + e') - e' <= 0).
      { unfold fexp64.
        destruct (Z.eq_dec e' (-1074)) as [-> | NE]; [lia |].
        pose proof (Zdigits2_ge m2 52 ltac:(lia) ltac:(lia)). lia. }
      replace (Z.to_nat (fexp64 (Zdigits2 m2 + e') - e')) with 0%nat by lia.
      rewrite Z.max_r in E2 by lia. rewrite Z.add_0_r in E2. subst e''.
      change (2 ^ Z.of_nat 0) with 1. rewrite Z.div_1_r.
      destruct m2 as [| q | q]; try lia.
      change (emax - prec) with 971.
      destruct (Z.leb_spec e' 971) as [O | O];
        cbn [nonneg_canonical ord]; split; try exact I; try lia.
Qed.

End RoundAux.

(** *** Rounding is monotone *)

Section RoundMonotone.

Local Open Scope Z_scope.

Lemma key_quot (m : Z) (l : location) : (4 * m + loc_code l) / 4 = m.
Proof. destruct l as [| []]; cbn [loc_code]; zdm. Qed.

Lemma loc_code_range (l : location) : 0 <= loc_code l <= 3.
Proof. destruct l as [| []]; cbn [loc_code]; lia. Qed.

(** Rounding is monotone: of two values at the same exponent, the larger
    has the larger weight. *)
Lemma round_weight_mono (mx mx' ex : Z) (lx lx' : location) :
  0 <= mx -> 4 * mx + loc_code lx <= 4 * mx' + loc_code lx' ->
  0 <= fexp64 (Zdigits2 mx + ex) - ex ->
  round_weight mx ex lx <= round_weight mx' ex lx'.
Proof.
  intros P H N.
  pose proof (loc_code_range lx). pose proof (loc_code_range lx').
  assert (Hm : mx <= mx') by lia.
  pose proof (Zdigits2_mono mx mx' ltac:(lia)) as D.
  assert (N' : 0 <= fexp64 (Zdigits2 mx' + ex) - ex) by (unfold fexp64 in *; lia).
  destruct (shifted_mantissa_bounds mx ex P N) as [[B0 B1] B2].
  destruct (shifted_mantissa_bounds mx' ex ltac:(lia) N') as [[B0' B1'] B2'].
  unfold round_weight.
  set (n := fexp64 (Zdigits2 mx + ex) - ex) in *.
  set (n' := fexp64 (Zdigits2 mx' + ex) - ex) in *.
  assert (Hn : n <= n') by (unfold n, n', fexp64; lia).
  pose proof (round_key_bounds (shift_key (Z.to_nat n) (4 * mx + loc_code lx))) as R.
  pose proof (round_key_bounds (shift_key (Z.to_nat n') (4 * mx' + loc_code lx'))) as R'.
  rewrite shift_key_quot, key_quot, Z2Nat.id in R, R' by lia.
  destruct (Z.eq_dec n n') as [E | NE].
  - rewrite <- E.
    pose proof (round_key_mono _ _
      (shift_key_mono (Z.to_nat n) _ _ H)). lia.
  - assert (-1074 <= ex + n) by (unfold n, fexp64; lia).
    specialize (B2' ltac:(lia)).
    consts. lia.
Qed.

Lemma Zdigits2_shift (m k : Z) :
  0 < m -> 0 <= k -> Zdigits2 (m * 2 ^ k) = Zdigits2 m + k.
Proof.
  intros P K. pose proof (Zdigits2_bounds m P) as [L U].
  pose proof (Zdigits2_pos m P) as D.
  assert (Q : 0 < 2 ^ k) by (apply Z.pow_pos_nonneg; lia).
  apply Z.le_antisymm.
  - apply Zdigits2_le; [nia | | lia].
    rewrite Z.pow_add_r by lia. nia.
  - pose proof (Zdigits2_ge (m * 2 ^ k) (Zdigits2 m - 1 + k)) as G.
    rewrite Z.pow_add_r in G by lia.
    specialize (G ltac:(nia) ltac:(lia)). lia.
Qed.

(** The weight depends on the value only, not on how it is written. *)
Lemma round_weight_align (m e k : Z) :
  0 < m -> 0 <= k -> 0 <= fexp64 (Zdigits2 m + e) - e ->
  round_weight (m * 2 ^ k) (e - k) loc_Exact = round_weight m e loc_Exact.
Proof.
  intros P K N. unfold round_weight.
  rewrite Zdigits2_shift by assumption.
  replace (Zdigits2 m + k + (e - k)) with (Zdigits2 m + e) by lia.
  set (n := fexp64 (Zdigits2 m + e) - e) in *.
  replace (fexp64 (Zdigits2 m + e) - (e - k)) with (n + k) by (unfold n; lia).
  replace (e - k + (n + k) + 1074) with (e + n + 1074) by lia.
  f_equal. f_equal.
  rewrite Z2Nat.inj_add, shift_key_add by lia.
  cbn [loc_code]. rewrite !Z.add_0_r. f_equal.
  replace (4 * (m * 2 ^ k)) with (4 * (2 ^ Z.of_nat (Z.to_nat k) * m))
    by (rewrite Z2Nat.id by lia; lia).
  apply shift_key_exact.
Qed.

Lemma shift_key_0 (n : nat) : shift_key n 0 = 0.
Proof.
  induction n as [| n IH]; [reflexivity |].
  change (sticky_half (shift_key n 0) = 0). rewrite IH. reflexivity.
Qed.

Lemma round_weight_0 (e : Z) : e <= -1074 -> round_weight 0 e loc_Exact = 0.
Proof.
  intros H. unfold round_weight. cbn [Zdigits2 loc_code].
  change (4 * 0 + 0) with 0. rewrite shift_key_0.
  change (round_key 0) with 0. unfold fexp64. lia.
Qed.

(** A canonical number is its own rounding. *)
Lemma round_weight_canonical (m e : Z) :
  0 < m -> fexp64 (Zdigits2 m + e) = e ->
  round_weight m e loc_Exact = (e + 1074) * 2 ^ 52 + m.
Proof.
  intros P C. unfold round_weight. rewrite C, Z.sub_diag.
  change (Z.to_nat 0) with 0%nat. cbn [loc_code].
  change (shift_key 0 (4 * m + 0)) with (4 * m + 0).
  rewrite (Z.add_0_r (4 * m)), round_key_exact. lia.
Qed.

Lemma bounded_canonical (m : positive) (e : Z) :
  bounded prec emax m e = true ->
  fexp64 (Zdigits2 (Zpos m) + e) = e /\ -1074 <= e <= 971 /\
  Zpos m < 2 ^ 53 /\ (-1074 < e -> 2 ^ 52 <= Zpos m).
Proof.
  intros B. apply bounded_spec in B. destruct B as (R & D & F).
  pose proof (digits2_bounds m) as [L U].
  cbn [Zdigits2]. unfold fexp64. split; [lia |]. split; [lia |]. split.
  - assert (2 ^ Zpos (digits2_pos m) <= 2 ^ 53) by (apply Z.pow_le_mono_r; lia).
    lia.
  - intros E. rewrite (F E) in L. exact L.
Qed.

(** Results compare as their positions do. *)
Lemma ord_leb (X Y : spec_float) :
  nonneg_canonical X -> nonneg_canonical Y ->
  ord X <= ord Y -> SFleb X Y = true.
Proof.
  unfold SFleb.
  destruct X as [sx | [] | | [] mx ex]; destruct Y as [sy | [] | | [] my ey];
    cbn [nonneg_canonical ord SFcompare]; try tauto; try reflexivity;
    intros HX HY H; try (consts; lia).
  destruct HX as (R & U & L). destruct HY as (R' & U' & L').
  destruct (Z.compare_spec ex ey) as [E | E | E]; try reflexivity.
  - subst ey. rewrite Pos.compare_cont_spec. cbn [Pos.switch_Eq].
    destruct (Pos.compare_spec mx my); try reflexivity. lia.
  - exfalso. specialize (L ltac:(lia)). consts. lia.
Qed.

Lemma leb_ord (X Y : spec_float) :
  nonneg_canonical X -> nonneg_canonical Y ->
  SFleb X Y = true -> ord X <= ord Y.
Proof.
  unfold SFleb.
  destruct X as [sx | [] | | [] mx ex]; destruct Y as [sy | [] | | [] my ey];
    cbn [nonneg_canonical ord SFcompare]; try tauto; try discriminate;
    intros HX HY H; try (consts; lia).
  destruct HX as (R & U & L). destruct HY as (R' & U' & L').
  destruct (Z.compare_spec ex ey) as [E | E | E]; try discriminate.
  - subst ey. rewrite Pos.compare_cont_spec in H. cbn [Pos.switch_Eq] in H.
    destruct (Pos.compare_spec mx my); try discriminate; lia.
  - specialize (L' ltac:(lia)). consts. lia.
Qed.

(** The rounding of a positive integer multiple of [2^e]. *)
Lemma binary_round_ord (m : positive) (e : Z) :
  -1074 <= e ->
  nonneg_canonical (binary_round prec emax false m e) /\
  ord (binary_round prec emax false m e)
  = Z.min (2047 * 2 ^ 52)
      (round_weight (Zpos m * 2 ^ (e + 1074)) (-1074) loc_Exact).
Proof.
  intros He. unfold binary_round. rewrite fexp64_eq.
  pose proof (shl_align_value m e (fexp64 (Zpos (digits2_pos m) + e))) as V.
  unfold shl_align in *.
  destruct (fexp64 (Zpos (digits2_pos m) + e) - e) as [| d | d] eqn:E;
    cbn [fst] in V.
  - assert (N : 0 <= fexp64 (Zdigits2 (Zpos m) + e) - e) by (cbn [Zdigits2]; lia).
    destruct (binary_round_aux_ord (Zpos m) e loc_Exact ltac:(lia) N) as [W O].
    split; [exact W |]. rewrite O. f_equal.
    rewrite <- (round_weight_align (Zpos m) e (e + 1074)) by lia.
    f_equal. lia.
  - assert (N : 0 <= fexp64 (Zdigits2 (Zpos m) + e) - e) by (cbn [Zdigits2]; lia).
    destruct (binary_round_aux_ord (Zpos m) e loc_Exact ltac:(lia) N) as [W O].
    split; [exact W |]. rewrite O. f_equal.
    rewrite <- (round_weight_align (Zpos m) e (e + 1074)) by lia.
    f_equal. lia.
  - specialize (V ltac:(lia)).
    set (e' := fexp64 (Zpos (digits2_pos m) + e)) in *.
    set (mz := Pos.iter xO m d) in *.
    assert (Ge : -1074 <= e') by (unfold e', fexp64; lia).
    assert (Dz : Zdigits2 (Zpos mz) = Zpos (digits2_pos m) + (e - e')).
    { rewrite V. apply (Zdigits2_shift (Zpos m)); lia. }
    assert (N : 0 <= fexp64 (Zdigits2 (Zpos mz) + e') - e').
    { rewrite Dz. replace (Zpos (digits2_pos m) + (e - e') + e')
        with (Zpos (digits2_pos m) + e) by lia. fold e'. lia. }
    destruct (binary_round_aux_ord (Zpos mz) e' loc_Exact ltac:(lia) N) as [W O].
    split; [exact W |]. rewrite O. f_equal.
    rewrite <- (round_weight_align (Zpos mz) e' (e' + 1074)) by lia.
    f_equal; [| lia]. rewrite V, <- Z.mul_assoc, <- Z.pow_add_r by lia.
    f_equal. f_equal. lia.
Qed.

End RoundMonotone.

(** *** Subtraction and multiplication *)

Section SubtractionMultiplication.

Local Open Scope Z_scope.

Lemma nonneg_finite_valid (f : spec_float) : nonneg_finite f -> finite_valid f.
Proof. destruct f as [| | | [] m e]; cbn; tauto. Qed.

Lemma scaled_pos (m : positive) (e : Z) :
  bounded prec emax m e = true -> 0 < Zpos m * 2 ^ (e + 1074).
Proof.
  intros B. apply bounded_spec in B.
  pose proof (Z.pow_pos_nonneg 2 (e + 1074)). lia.
Qed.

Lemma scaled_lex (m1 m2 : positive) (e1 e2 : Z) :
  bounded prec emax m1 e1 = true -> bounded prec emax m2 e2 = true ->
  e1 < e2 ->
  Zpos m1 * 2 ^ (e1 + 1074) < Zpos m2 * 2 ^ (e2 + 1074).
Proof.
  intros B1 B2 H.
  apply bounded_canonical in B1. destruct B1 as (_ & R1 & U1 & _).
  apply bounded_canonical in B2. destruct B2 as (_ & R2 & _ & L2).
  specialize (L2 ltac:(lia)).
  replace (e2 + 1074) with ((e2 - e1) + (e1 + 1074)) by lia.
  rewrite (Z.pow_add_r 2 (e2 - e1) (e1 + 1074)) by lia.
  assert (P : 0 < 2 ^ (e1 + 1074)) by (apply Z.pow_pos_nonneg; lia).
  assert (Q : 2 ^ 1 <= 2 ^ (e2 - e1)) by (apply Z.pow_le_mono_r; lia).
  change (2 ^ 1) with 2 in Q. consts.
  assert (9007199254740992 <= Zpos m2 * 2 ^ (e2 - e1)) by nia.
  nia.
Qed.

Lemma scaled_le (X Y : spec_float) :
  finite_valid X -> finite_valid Y ->
  SFleb X Y = true -> scaled X <= scaled Y.
Proof.
  unfold SFleb.
  destruct X as [sx | sx | | sx mx ex]; destruct Y as [sy | sy | | sy my ey];
    cbn [finite_valid scaled SFcompare]; try tauto; intros BX BY H; try lia.
  - pose proof (scaled_pos my ey BY). destruct sy; cbn [cond_Zopp]; [discriminate | lia].
  - pose proof (scaled_pos mx ex BX). destruct sx; cbn [cond_Zopp]; [lia | discriminate].
  - pose proof (scaled_pos mx ex BX). pose proof (scaled_pos my ey BY).
    destruct sx, sy; cbn [cond_Zopp]; try discriminate; try lia.
    + destruct (Z.compare_spec ex ey) as [E | E | E]; try discriminate.
      * subst ey. rewrite Pos.compare_cont_spec in H. cbn [Pos.switch_Eq] in H.
        assert (Zpos my <= Zpos mx)
          by (destruct (Pos.compare_spec mx my); try discriminate; lia).
        nia.
      * pose proof (scaled_lex my mx ey ex BY BX E). lia.
    + destruct (Z.compare_spec ex ey) as [E | E | E]; try discriminate.
      * subst ey. rewrite Pos.compare_cont_spec in H. cbn [Pos.switch_Eq] in H.
        assert (Zpos mx <= Zpos my)
          by (destruct (Pos.compare_spec mx my); try discriminate; lia).
        nia.
      * pose proof (scaled_lex mx my ex ey BX BY E). lia.
Qed.

(** A canonical positive number is the rounding of its own value. *)
Lemma canonical_weight (m : positive) (e : Z) :
  bounded prec emax m e = true ->
  round_weight (Zpos m * 2 ^ (e + 1074)) (-1074) loc_Exact
  = (e + 1074) * 2 ^ 52 + Zpos m /\
  (e + 1074) * 2 ^ 52 + Zpos m < 2047 * 2 ^ 52 /\
  nonneg_canonical (S754_finite false m e).
Proof.
  intros B. apply bounded_canonical in B. destruct B as (C & R & U & L).
  split; [| split].
  - replace (-1074) with (e - (e + 1074)) at 1 by lia.
    rewrite round_weight_align by lia.
    apply round_weight_canonical; [lia | exact C].
  - consts. lia.
  - cbn [nonneg_canonical]. auto.
Qed.

Lemma SFsub_ord (X Y : spec_float) :
  finite_valid X -> finite_valid Y -> scaled Y <= scaled X ->
  nonneg_canonical (SFsub prec emax X Y) /\
  ord (SFsub prec emax X Y)
  = Z.min (2047 * 2 ^ 52)
      (round_weight (scaled X - scaled Y) (-1074) loc_Exact).
Proof.
  destruct X as [sx | sx | | sx mx ex]; destruct Y as [sy | sy | | sy my ey];
    cbn [finite_valid scaled]; try tauto; intros BX BY H.
  - rewrite round_weight_0 by lia.
    destruct sx, sy; cbn [SFsub nonneg_canonical ord]; split; auto.
  - pose proof (scaled_pos my ey BY).
    destruct sy; cbn [cond_Zopp] in *; [| lia].
    destruct (canonical_weight my ey BY) as (W & U & C).
    cbn [SFsub negb ord].
    replace (0 - - (Zpos my * 2 ^ (ey + 1074))) with (Zpos my * 2 ^ (ey + 1074)) by lia.
    rewrite W. split; [exact C | lia].
  - pose proof (scaled_pos mx ex BX).
    destruct sx; cbn [cond_Zopp] in *; [lia |].
    destruct (canonical_weight mx ex BX) as (W & U & C).
    cbn [SFsub ord]. rewrite Z.sub_0_r, W. split; [exact C | lia].
  - cbn [SFsub].
    pose proof (bounded_canonical mx ex BX) as (_ & RX & _).
    pose proof (bounded_canonical my ey BY) as (_ & RY & _).
    set (ez := Z.min ex ey).
    rewrite !shl_align_value by (unfold ez; lia).
    set (D := cond_Zopp sx (Zpos mx * 2 ^ (ex - ez))
              - cond_Zopp sy (Zpos my * 2 ^ (ey - ez))).
    assert (V : D * 2 ^ (ez + 1074)
                = cond_Zopp sx (Zpos mx * 2 ^ (ex + 1074))
                  - cond_Zopp sy (Zpos my * 2 ^ (ey + 1074))).
    { unfold D.
      replace (ex + 1074) with ((ex - ez) + (ez + 1074)) by lia.
      replace (ey + 1074) with ((ey - ez) + (ez + 1074)) by lia.
      rewrite (Z.pow_add_r 2 (ex - ez) (ez + 1074)) by (unfold ez; lia).
      rewrite (Z.pow_add_r 2 (ey - ez) (ez + 1074)) by (unfold ez; lia).
      destruct sx, sy; cbn [cond_Zopp]; lia. }
    rewrite <- V.
    assert (P : 0 < 2 ^ (ez + 1074)) by (apply Z.pow_pos_nonneg; unfold ez; lia).
    assert (DP : 0 <= D) by nia.
    destruct D as [| d | d]; try lia.
    + cbn [binary_normalize nonneg_canonical ord].
      rewrite Z.mul_0_l, round_weight_0 by lia. split; auto.
    + cbn [binary_normalize]. apply binary_round_ord. unfold ez. lia.
Qed.

Lemma product_shift_nonneg (mx my : positive) (ex ey : Z) :
  bounded prec emax mx ex = true -> bounded prec emax my ey = true ->
  0 <= fexp64 (Zdigits2 (Zpos (mx * my)) + (ex + ey)) - (ex + ey).
Proof.
  intros BX BY.
  apply bounded_spec in BX. destruct BX as (RX & DX & FX).
  apply bounded_spec in BY. destruct BY as (RY & DY & FY).
  pose proof (digits2_bounds mx) as [LX _].
  pose proof (digits2_bounds my) as [LY _].
  assert (G : Zpos (digits2_pos mx) - 1 + (Zpos (digits2_pos my) - 1) + 1
              <= Zdigits2 (Zpos (mx * my))).
  { apply Zdigits2_ge; [| lia]. rewrite Z.pow_add_r by lia.
    rewrite Pos2Z.inj_mul.
    assert (0 < 2 ^ (Zpos (digits2_pos mx) - 1)) by (apply Z.pow_pos_nonneg; lia).
    assert (0 < 2 ^ (Zpos (digits2_pos my) - 1)) by (apply Z.pow_pos_nonneg; lia).
    nia. }
  unfold fexp64.
  destruct (Z.eq_dec ex (-1074)) as [EX | EX];
    destruct (Z.eq_dec ey (-1074)) as [EY | EY]; lia.
Qed.

Lemma SFmul_ord (X Y : spec_float) :
  nonneg_finite X -> nonneg_finite Y ->
  nonneg_canonical (SFmul prec emax X Y) /\
  ord (SFmul prec emax X Y)
  = Z.min (2047 * 2 ^ 52)
      (round_weight (scaled X * scaled Y) (-2148) loc_Exact).
Proof.
  destruct X as [sx | sx | | [] mx ex]; destruct Y as [sy | sy | | [] my ey];
    cbn [nonneg_finite scaled cond_Zopp]; try tauto; intros BX BY;
    rewrite ?Z.mul_0_l, ?Z.mul_0_r, ?round_weight_0 by lia;
    cbn [SFmul nonneg_canonical ord]; try (split; [exact I | reflexivity]).
  pose proof (product_shift_nonneg mx my ex ey BX BY) as N.
  pose proof (bounded_canonical mx ex BX) as (_ & RX & _).
  pose proof (bounded_canonical my ey BY) as (_ & RY & _).
  destruct (binary_round_aux_ord (Zpos (mx * my)) (ex + ey) loc_Exact
              ltac:(lia) N) as [W O].
  cbn [xorb]. split; [exact W |]. rewrite O. f_equal.
  rewrite <- (round_weight_align (Zpos (mx * my)) (ex + ey) (ex + ey + 2148))
    by lia.
  f_equal; [| lia].
  replace (ex + ey + 2148) with ((ex + 1074) + (ey + 1074)) by lia.
  rewrite (Z.pow_add_r 2 (ex + 1074) (ey + 1074)), Pos2Z.inj_mul by lia. lia.
Qed.

Lemma exact_shift_nonneg (N e : Z) :
  e <= -1074 -> 0 <= fexp64 (Zdigits2 N + e) - e.
Proof. unfold fexp64. lia. Qed.

Lemma round_weight_exact_mono (N N' e : Z) :
  0 <= N <= N' -> e <= -1074 ->
  Z.min (2047 * 2 ^ 52) (round_weight N e loc_Exact)
  <= Z.min (2047 * 2 ^ 52) (round_weight N' e loc_Exact).
Proof.
  intros H He.
  pose proof (round_weight_mono N N' e loc_Exact loc_Exact ltac:(lia)
                ltac:(cbn [loc_code]; lia) (exact_shift_nonneg N e He)).
  lia.
Qed.

(** Subtraction is monotone where the differences are not negative. *)
Lemma SFsub_mono (X Y X' Y' : spec_float) :
  finite_valid X -> finite_valid Y -> finite_valid X' -> finite_valid Y' ->
  scaled Y <= scaled X ->
  scaled X - scaled Y <= scaled X' - scaled Y' ->
  SFleb (SFsub prec emax X Y) (SFsub prec emax X' Y') = true.
Proof.
  intros VX VY VX' VY' P H.
  destruct (SFsub_ord X Y VX VY P) as [C O].
  destruct (SFsub_ord X' Y' VX' VY' ltac:(lia)) as [C' O'].
  apply ord_leb; [exact C | exact C' |]. rewrite O, O'.
  apply round_weight_exact_mono; lia.
Qed.

(** Multiplication of non-negative numbers is monotone. *)
Lemma SFmul_mono (X X' Y Y' : spec_float) :
  nonneg_finite X -> nonneg_finite X' -> nonneg_finite Y -> nonneg_finite Y' ->
  0 <= scaled X <= scaled X' -> 0 <= scaled Y <= scaled Y' ->
  SFleb (SFmul prec emax X Y) (SFmul prec emax X' Y') = true.
Proof.
  intros VX VX' VY VY' H1 H2.
  destruct (SFmul_ord X Y VX VY) as [C O].
  destruct (SFmul_ord X' Y' VX' VY') as [C' O'].
  apply ord_leb; [exact C | exact C' |]. rewrite O, O'.
  apply round_weight_exact_mono; [nia | lia].
Qed.

End SubtractionMultiplication.

(** *** Division *)

Section Division.

Local Open Scope Z_scope.

Lemma new_location_div_loc (N d : Z) :
  0 < d -> new_location d (N mod d) = div_loc N d.
Proof.
  intros P. unfold new_location, div_loc, new_location_even, new_location_odd.
  pose proof (Z.mod_pos_bound N d P) as B.
  destruct (Z.even d) eqn:E; [reflexivity |].
  destruct (N mod d =? 0); [reflexivity |]. f_equal.
  assert (O : Z.odd d = true) by (rewrite <- Z.negb_even, E; reflexivity).
  apply Z.odd_spec in O. destruct O as [j J].
  destruct (Z.compare_spec (2 * (N mod d) + 1) d);
    destruct (Z.compare_spec (2 * (N mod d)) d); try reflexivity; lia.
Qed.

Lemma div_key_mono (N N' d : Z) :
  0 < d -> 0 <= N <= N' -> div_key N d <= div_key N' d.
Proof.
  intros P H. unfold div_key, div_loc.
  pose proof (Z.mod_pos_bound N d P). pose proof (Z.mod_pos_bound N' d P).
  pose proof (Z.div_mod N d ltac:(lia)). pose proof (Z.div_mod N' d ltac:(lia)).
  assert (Q : N / d <= N' / d) by (apply Z.div_le_mono; lia).
  assert (C : forall M, 0 <= loc_code
            (if M mod d =? 0 then loc_Exact else loc_Inexact (2 * (M mod d) ?= d)) <= 3)
    by (intros M; apply loc_code_range).
  pose proof (C N). pose proof (C N').
  destruct (Z.eq_dec (N / d) (N' / d)) as [E | E]; [| lia].
  rewrite E in *. assert (R : N mod d <= N' mod d) by nia.
  destruct (Z.eqb_spec (N mod d) 0); destruct (Z.eqb_spec (N' mod d) 0);
    destruct (Z.compare_spec (2 * (N mod d)) d);
    destruct (Z.compare_spec (2 * (N' mod d)) d); cbn [loc_code]; lia.
Qed.

Lemma div_key_half (N d : Z) :
  0 < d -> 0 <= N -> sticky_half (div_key (2 * N) d) = div_key N d.
Proof.
  intros P H.
  pose proof (Z.mod_pos_bound N d P) as B.
  pose proof (Z.div_mod N d ltac:(lia)) as D.
  set (q := N / d) in *. set (r := N mod d) in *.
  assert (S : forall a c, 0 <= c <= 3 ->
            sticky_half (4 * a + c) = 2 * a + (if c =? 0 then 0 else 1)).
  { intros a c Hc. unfold sticky_half.
    replace ((4 * a + c) / 4) with a by zdm.
    replace ((4 * a + c) mod 4) with c by zdm. reflexivity. }
  unfold div_key at 1. rewrite S by apply loc_code_range.
  unfold div_key, div_loc. fold q. fold r.
  destruct (Z.lt_ge_cases (2 * r) d) as [L | G].
  - assert (Q2 : 2 * N / d = 2 * q)
      by (symmetry; apply (Z.div_unique_pos _ _ _ (2 * r)); lia).
    assert (R2 : (2 * N) mod d = 2 * r)
      by (symmetry; apply (Z.mod_unique_pos _ _ (2 * q)); lia).
    rewrite Q2, R2.
    destruct (Z.eqb_spec (2 * r) 0); destruct (Z.eqb_spec r 0); try lia;
      [codes; lia |].
    destruct (Z.compare_spec (2 * (2 * r)) d);
      destruct (Z.compare_spec (2 * r) d); codes; lia.
  - assert (Q2 : 2 * N / d = 2 * q + 1)
      by (symmetry; apply (Z.div_unique_pos _ _ _ (2 * r - d)); lia).
    assert (R2 : (2 * N) mod d = 2 * r - d)
      by (symmetry; apply (Z.mod_unique_pos _ _ (2 * q + 1)); lia).
    rewrite Q2, R2.
    destruct (Z.eqb_spec (2 * r - d) 0); destruct (Z.eqb_spec r 0); try lia;
      destruct (Z.compare_spec (2 * r) d); try lia; codes; try lia.
    destruct (Z.compare_spec (2 * (2 * r - d)) d); codes; lia.
Qed.

Lemma div_key_shift (k : nat) (N d : Z) :
  0 < d -> 0 <= N ->
  shift_key k (div_key (N * 2 ^ Z.of_nat k) d) = div_key N d.
Proof.
  intros P H. revert N H. induction k as [| k IH]; intros N H.
  - change (2 ^ Z.of_nat 0) with 1. rewrite Z.mul_1_r. reflexivity.
  - rewrite shift_key_S, Nat2Z.inj_succ, Z.pow_succ_r by apply Nat2Z.is_nonneg.
    replace (N * (2 * 2 ^ Z.of_nat k)) with (2 * (N * 2 ^ Z.of_nat k)) by lia.
    assert (0 < 2 ^ Z.of_nat k) by (apply Z.pow_pos_nonneg; lia).
    rewrite div_key_half by nia. apply IH, H.
Qed.

Lemma quotient_digits_shift (M d k : Z) :
  0 < d -> 0 <= k -> 1 <= M / d ->
  Zdigits2 (M * 2 ^ k / d) = Zdigits2 (M / d) + k.
Proof.
  intros P K Q.
  pose proof (Z.mod_pos_bound M d P) as B.
  pose proof (Z.div_mod M d ltac:(lia)) as D.
  pose proof (Zdigits2_bounds (M / d) ltac:(lia)) as [L U].
  pose proof (Zdigits2_pos (M / d) ltac:(lia)) as DP.
  set (q := M / d) in *.
  assert (T : 0 < 2 ^ k) by (apply Z.pow_pos_nonneg; lia).
  assert (Lo : q * 2 ^ k <= M * 2 ^ k / d)
    by (apply Z.div_le_lower_bound; nia).
  assert (Hi : M * 2 ^ k / d < (q + 1) * 2 ^ k)
    by (apply Z.div_lt_upper_bound; nia).
  apply Z.le_antisymm.
  - apply Zdigits2_le; [nia | | lia].
    rewrite Z.pow_add_r by lia. nia.
  - pose proof (Zdigits2_ge (M * 2 ^ k / d) (Zdigits2 q - 1 + k)) as G.
    rewrite Z.pow_add_r in G by lia.
    specialize (G ltac:(nia) ltac:(lia)). lia.
Qed.

Lemma small_quotient_digits (M d k : Z) :
  0 < d -> 0 <= k -> 0 <= M -> M / d = 0 ->
  0 <= Zdigits2 (M * 2 ^ k / d) <= k.
Proof.
  intros P K H Q. split; [apply Zdigits2_nonneg |].
  assert (T : 0 < 2 ^ k) by (apply Z.pow_pos_nonneg; lia).
  pose proof (Z.mod_pos_bound M d P) as B.
  pose proof (Z.div_mod M d ltac:(lia)) as D. rewrite Q in D.
  assert (Hi : M * 2 ^ k / d < 2 ^ k) by (apply Z.div_lt_upper_bound; nia).
  assert (Lo : 0 <= M * 2 ^ k / d) by (apply Z.div_pos; nia).
  destruct (Z.eq_dec (M * 2 ^ k / d) 0) as [-> | NZ]; [cbn; lia |].
  apply Zdigits2_le; lia.
Qed.

(** The weight of a quotient does not depend on the scale at which the
    division is carried out. *)
Lemma round_weight_div_align (M d e k : Z) :
  0 < d -> 0 <= M -> 0 <= k ->
  0 <= fexp64 (Zdigits2 (M / d) + e) - e ->
  round_weight (M * 2 ^ k / d) (e - k) (div_loc (M * 2 ^ k) d)
  = round_weight (M / d) e (div_loc M d).
Proof.
  intros P H K N. unfold round_weight.
  assert (F : fexp64 (Zdigits2 (M * 2 ^ k / d) + (e - k))
              = fexp64 (Zdigits2 (M / d) + e)).
  { assert (Q : 0 <= M / d) by (apply Z.div_pos; lia).
    destruct (Z.eq_dec (M / d) 0) as [Z0 | NZ].
    - pose proof (small_quotient_digits M d k P K H Z0).
      rewrite Z0 in *. cbn [Zdigits2] in *. unfold fexp64 in *. lia.
    - rewrite quotient_digits_shift by lia. f_equal. lia. }
  rewrite F.
  set (n := fexp64 (Zdigits2 (M / d) + e) - e) in *.
  replace (fexp64 (Zdigits2 (M / d) + e) - (e - k)) with (n + k) by (unfold n; lia).
  replace (e - k + (n + k) + 1074) with (e + n + 1074) by lia.
  f_equal. f_equal.
  rewrite Z2Nat.inj_add, shift_key_add by lia. f_equal.
  fold (div_key (M * 2 ^ k) d). fold (div_key M d).
  rewrite <- (Z2Nat.id k) at 2 by lia.
  apply div_key_shift; lia.
Qed.

Lemma SFdiv_core_binary_spec (mx my : positive) (ex ey : Z) :
  bounded prec emax mx ex = true -> bounded prec emax my ey = true ->
  let e' := Z.min (fexp64 (Zdigits2 (Zpos mx) + ex - (Zdigits2 (Zpos my) + ey)))
                  (ex - ey) in
  let M := Zpos mx * 2 ^ (ex - ey - e') in
  SFdiv_core_binary prec emax (Zpos mx) ex (Zpos my) ey
  = (M / Zpos my, e', div_loc M (Zpos my)) /\
  -2148 <= e' <= ex - ey /\
  0 <= fexp64 (Zdigits2 (M / Zpos my) + e') - e'.
Proof.
  intros BX BY e' M.
  apply bounded_spec in BX. destruct BX as (RX & DX & FX).
  apply bounded_spec in BY. destruct BY as (RY & DY & FY).
  pose proof (digits2_bounds mx) as [LX UX].
  pose proof (digits2_bounds my) as [LY UY].
  assert (Re : -2148 <= e' <= ex - ey) by (unfold e', fexp64; lia).
  split; [| split; [exact Re |]].
  - unfold SFdiv_core_binary. rewrite fexp64_eq. fold e'.
    assert (V : match ex - ey - e' with
                | 0 => Zpos mx
                | Zpos _ => Z.shiftl (Zpos mx) (ex - ey - e')
                | Zneg _ => 0
                end = M).
    { unfold M. destruct (ex - ey - e') as [| s | s] eqn:S; try lia.
      rewrite Z.shiftl_mul_pow2 by lia. reflexivity. }
    rewrite V.
    pose proof (new_location_div_loc M (Zpos my) ltac:(lia)) as NL.
    unfold Z.div, Z.modulo in *.
    destruct (Z.div_eucl M (Zpos my)) as [q r]. cbn [fst snd] in *.
    rewrite NL. reflexivity.
  - destruct (Z.le_gt_cases e' (-1074)) as [Lo | Hi]; [unfold fexp64; lia |].
    cbn [Zdigits2] in *.
    assert (E : e' = Zpos (digits2_pos mx) + ex - (Zpos (digits2_pos my) + ey) - 53)
      by (unfold e', fexp64 in *; lia).
    assert (S : ex - ey - e' = 53 + Zpos (digits2_pos my) - Zpos (digits2_pos mx))
      by lia.
    assert (Q : 2 ^ 52 <= M / Zpos my).
    { apply Z.div_le_lower_bound; [lia |].
      unfold M. rewrite S.
      replace (53 + Zpos (digits2_pos my) - Zpos (digits2_pos mx))
        with ((Zpos (digits2_pos my) + 52) - (Zpos (digits2_pos mx) - 1)) by lia.
      assert (T : 2 ^ (Zpos (digits2_pos my) + 52)
                  = 2 ^ (Zpos (digits2_pos mx) - 1)
                    * 2 ^ (Zpos (digits2_pos my) + 52 - (Zpos (digits2_pos mx) - 1))).
      { rewrite <- Z.pow_add_r by lia. f_equal. lia. }
      assert (0 < 2 ^ (Zpos (digits2_pos my) + 52 - (Zpos (digits2_pos mx) - 1)))
        by (apply Z.pow_pos_nonneg; lia).
      rewrite Z.pow_add_r in T by lia.
      assert (0 < 2 ^ 52) by (apply Z.pow_pos_nonneg; lia).
      nia. }
    pose proof (Zdigits2_ge (M / Zpos my) 52 Q ltac:(lia)).
    unfold fexp64. lia.
Qed.

Lemma SFdiv_ord (X : spec_float) (my : positive) (ey : Z) :
  nonneg_finite X -> bounded prec emax my ey = true ->
  nonneg_canonical (SFdiv prec emax X (S754_finite false my ey)) /\
  ord (SFdiv prec emax X (S754_finite false my ey))
  = Z.min (2047 * 2 ^ 52) (quotient_weight X my ey).
Proof.
  unfold quotient_weight.
  destruct X as [sx | sx | | [] mx ex]; cbn [nonneg_finite scaled cond_Zopp];
    intros BX BY; try contradiction;
    [cbn [SFdiv nonneg_canonical ord]; split; [exact I | reflexivity] |].
  destruct (SFdiv_core_binary_spec mx my ex ey BX BY) as (C & Re & N).
    cbn [SFdiv]. rewrite C. cbn [xorb].
    set (e' := Z.min (fexp64 (Zdigits2 (Zpos mx) + ex - (Zdigits2 (Zpos my) + ey)))
                     (ex - ey)) in *.
    set (M := Zpos mx * 2 ^ (ex - ey - e')) in *.
    assert (MP : 0 <= M)
      by (unfold M; pose proof (Z.pow_pos_nonneg 2 (ex - ey - e')); lia).
    assert (Q : 0 <= M / Zpos my) by (apply Z.div_pos; lia).
    destruct (binary_round_aux_ord (M / Zpos my) e' (div_loc M (Zpos my)) Q N)
      as [W O].
    split; [exact W |]. rewrite O. f_equal.
    rewrite <- (round_weight_div_align M (Zpos my) e' (e' + 2148))
      by lia.
    apply bounded_spec in BX. apply bounded_spec in BY.
    assert (V : M * 2 ^ (e' + 2148)
                = Zpos mx * 2 ^ (ex + 1074) * 2 ^ (1074 - ey)).
    { unfold M. rewrite <- !Z.mul_assoc, <- !Z.pow_add_r by lia.
      f_equal. f_equal. lia. }
    rewrite V. f_equal. lia.
Qed.

(** Division by a positive number is monotone in the numerator. *)
Lemma SFdiv_mono (X X' : spec_float) (my : positive) (ey : Z) :
  nonneg_finite X -> nonneg_finite X' -> bounded prec emax my ey = true ->
  0 <= scaled X <= scaled X' ->
  SFleb (SFdiv prec emax X (S754_finite false my ey))
        (SFdiv prec emax X' (S754_finite false my ey)) = true.
Proof.
  intros VX VX' BY H.
  destruct (SFdiv_ord X my ey VX BY) as [C O].
  destruct (SFdiv_ord X' my ey VX' BY) as [C' O'].
  apply ord_leb; [exact C | exact C' |]. rewrite O, O'.
  unfold quotient_weight.
  apply bounded_spec in BY.
  assert (T : 0 < 2 ^ (1074 - ey)) by (apply Z.pow_pos_nonneg; lia).
  assert (K : div_key (scaled X * 2 ^ (1074 - ey)) (Zpos my)
              <= div_key (scaled X' * 2 ^ (1074 - ey)) (Zpos my))
    by (apply div_key_mono; [lia | nia]).
  unfold div_key in K.
  assert (Q : 0 <= scaled X * 2 ^ (1074 - ey) / Zpos my)
    by (apply Z.div_pos; [nia | lia]).
  assert (N : 0 <= fexp64 (Zdigits2 (scaled X * 2 ^ (1074 - ey) / Zpos my)
                           + -2148) - -2148)
    by (unfold fexp64; lia).
  pose proof (round_weight_mono _ _ (-2148) _ _ Q K N). lia.
Qed.

End Division.

Local Open Scope float_scope.

(** ** Order and arithmetic of doubles *)

Section FloatOrder.

Lemma ltb_Lt (x y : float) :
  (x <? y) = true <-> SFcompare (Prim2SF x) (Prim2SF y) = Some Lt.
Proof.
  rewrite ltb_spec. unfold SFltb.
  destruct (SFcompare (Prim2SF x) (Prim2SF y)) as [[| |] |];
    split; congruence.
Qed.

Lemma leb_LtEq (x y : float) :
  (x <=? y) = true <->
  SFcompare (Prim2SF x) (Prim2SF y) = Some Lt \/
  SFcompare (Prim2SF x) (Prim2SF y) = Some Eq.
Proof.
  rewrite leb_spec. unfold SFleb.
  destruct (SFcompare (Prim2SF x) (Prim2SF y)) as [[| |] |];
    split; try tauto; try congruence; intros [H | H]; congruence.
Qed.

Lemma is_nan_spec (x : float) :
  is_nan x = true <-> Prim2SF x = S754_nan.
Proof.
  unfold is_nan. rewrite negb_true_iff, eqb_spec. unfold SFeqb. split.
  - intros H. destruct (Prim2SF x) eqn:E; try reflexivity;
      rewrite SFcompare_refl in H by discriminate; discriminate.
  - intros ->. reflexivity.
Qed.

(** [x <= y] excludes [y < x]. *)
Lemma leb_not_ltb (x y : float) : (x <=? y) = true -> (y <? x) = false.
Proof.
  rewrite leb_LtEq. intros H. apply not_true_iff_false. rewrite ltb_Lt.
  rewrite SFcompare_swap. destruct H as [-> | ->]; discriminate.
Qed.

(** [x < y] excludes [y <= x]. *)
Lemma ltb_not_leb (x y : float) : (x <? y) = true -> (y <=? x) = false.
Proof.
  rewrite ltb_Lt. intros H. apply not_true_iff_false. rewrite leb_LtEq.
  rewrite SFcompare_swap, H. intros [E | E]; discriminate.
Qed.

Lemma leb_ltb_trans (x y z : float) :
  (x <=? y) = true -> (y <? z) = true -> (x <? z) = true.
Proof.
  rewrite leb_LtEq, !ltb_Lt. apply SFcompare_trans.
Qed.

Lemma leb_trans (x y z : float) :
  (x <=? y) = true -> (y <=? z) = true -> (x <=? z) = true.
Proof.
  rewrite !leb_LtEq. apply SFcompare_trans_le.
Qed.

(** Two numbers that are not NaN are comparable. *)
Lemma not_ltb_leb (x y : float) :
  is_nan x = false -> is_nan y = false ->
  (x <? y) = false -> (y <=? x) = true.
Proof.
  intros Nx Ny H. apply not_true_iff_false in H. rewrite ltb_Lt in H.
  rewrite leb_LtEq, SFcompare_swap.
  destruct (SFcompare (Prim2SF x) (Prim2SF y)) as [[| |] |] eqn:E;
    cbn [option_map CompOpp]; try tauto.
  apply SFcompare_None in E. rewrite <- !is_nan_spec in E.
  destruct E; congruence.
Qed.

(** A NaN fails every comparison. *)
Lemma nan_compare (x y : float) :
  is_nan x = true ->
  (x <? y) = false /\ (y <? x) = false /\
  (x <=? y) = false /\ (y <=? x) = false.
Proof.
  rewrite is_nan_spec. intros N.
  rewrite !ltb_spec, !leb_spec. unfold SFltb, SFleb. rewrite N.
  cbn [SFcompare]. destruct (Prim2SF y); repeat split; reflexivity.
Qed.

Lemma leb_not_nan (x y : float) :
  (x <=? y) = true -> is_nan x = false /\ is_nan y = false.
Proof.
  intros H. split; apply not_true_iff_false; intros N.
  - destruct (nan_compare x y N) as (_ & _ & N1 & _). congruence.
  - destruct (nan_compare y x N) as (_ & _ & _ & N2). congruence.
Qed.

End FloatOrder.

Section FloatArithmetic.

(** The difference of two doubles, the larger first, is positive, so it
    is not zero. *)
Lemma float_sub_pos (x y : float) :
  (x <? y) = true -> (0 <? y - x) = true /\ (y - x =? 0) = false.
Proof.
  rewrite ltb_Lt. intros H.
  pose proof (SFsub_pos _ _ (Prim2SF_valid x) (Prim2SF_valid y) H) as P.
  rewrite ltb_spec, eqb_spec, sub_spec.
  change (Prim2SF 0) with (S754_zero false).
  destruct (SF64sub (Prim2SF y) (Prim2SF x)) as [s | s | | s m e];
    try destruct s; cbn [Binary64.positive_result] in P; try contradiction;
    split; reflexivity.
Qed.

Lemma float_finite_nonzero_spec (b : float) :
  is_finite b = true -> (b =? 0) = false ->
  exists s m e, Prim2SF b = S754_finite s m e.
Proof.
  unfold is_finite, is_infinity. rewrite negb_true_iff, orb_false_iff.
  intros [N I] Z. apply not_true_iff_false in N. rewrite is_nan_spec in N.
  rewrite eqb_spec, abs_spec in I. rewrite eqb_spec in Z.
  change (Prim2SF infinity) with (S754_infinity false) in I.
  change (Prim2SF 0) with (S754_zero false) in Z.
  destruct (Prim2SF b) as [s | s | | s m e];
    try discriminate; try congruence.
  exists s, m, e. reflexivity.
Qed.

(** A finite double other than zero divided by itself is exactly one. *)
Lemma float_div_self (b : float) :
  is_finite b = true -> (b =? 0) = false -> b / b = 1.
Proof.
  intros F Z. destruct (float_finite_nonzero_spec b F Z) as (s & m & e & E).
  apply Prim2SF_inj. rewrite div_spec, E. apply SFdiv_self.
Qed.

(** One times a double is that double. *)
Lemma float_mul_1_l (x : float) : 1 * x = x.
Proof.
  apply Prim2SF_inj. rewrite mul_spec.
  change (Prim2SF 1) with (S754_finite false 4503599627370496 (-52)).
  apply SFmul_1_l, Prim2SF_valid.
Qed.

End FloatArithmetic.

(** ** Special values *)

Section Binary64Special.

Local Open Scope Z_scope.

Lemma SFsub_self (X : spec_float) :
  match X with S754_zero _ | S754_finite _ _ _ => True | _ => False end ->
  SF64sub X X = S754_zero false.
Proof.
  destruct X as [s | s | | s m e]; intros H; try contradiction.
  - destruct s; reflexivity.
  - unfold SF64sub, SFsub. rewrite Z.sub_diag. reflexivity.
Qed.

End Binary64Special.

Lemma float_finite_spec (x : float) :
  is_finite x = true ->
  match Prim2SF x with
  | S754_zero _ | S754_finite _ _ _ => True
  | _ => False
  end.
Proof.
  unfold is_finite, is_infinity. rewrite negb_true_iff, orb_false_iff.
  intros [N Hi]. apply not_true_iff_false in N. rewrite is_nan_spec in N.
  rewrite eqb_spec, abs_spec in Hi.
  change (Prim2SF infinity) with (S754_infinity false) in Hi.
  destruct (Prim2SF x) as [s | s | | s m e];
    try exact I; try discriminate Hi; congruence.
Qed.

(** A finite double minus itself is [0.0]. *)
Lemma float_sub_self (x : float) : is_finite x = true -> x - x = 0.
Proof.
  intros F. apply Prim2SF_inj. rewrite sub_spec.
  apply SFsub_self, float_finite_spec, F.
Qed.

(** [0.0] divided by a positive double is [0.0]. *)
Lemma float_zero_div (d : float) : (0 <? d) = true -> 0 / d = 0.
Proof.
  rewrite ltb_Lt. change (Prim2SF 0) with (S754_zero false). intros H.
  apply Prim2SF_inj. rewrite div_spec.
  change (Prim2SF 0) with (S754_zero false).
  destruct (Prim2SF d) as [s | s | | s m e]; try destruct s;
    cbn [SFcompare] in H; try discriminate; reflexivity.
Qed.

(** [0.0] times a finite double is a zero. *)
Lemma float_zero_mul (x : float) : is_finite x = true -> (0 * x =? 0) = true.
Proof.
  intros F. apply float_finite_spec in F. rewrite eqb_spec, mul_spec.
  change (Prim2SF 0) with (S754_zero false).
  destruct (Prim2SF x) as [s | s | | s m e]; try contradiction;
    destruct s; reflexivity.
Qed.

Lemma leb_refl (x : float) : is_nan x = false -> (x <=? x) = true.
Proof.
  intros N. apply not_true_iff_false in N. rewrite is_nan_spec in N.
  rewrite leb_LtEq. right. apply SFcompare_refl. exact N.
Qed.

Lemma ltb_not_nan (x y : float) :
  (x <? y) = true -> is_nan x = false /\ is_nan y = false.
Proof.
  intros H. split; apply not_true_iff_false; intros N.
  - destruct (nan_compare x y N) as (N1 & _). congruence.
  - destruct (nan_compare y x N) as (_ & N2 & _). congruence.
Qed.

(** ** The operations of the ramp are monotone *)

Section FloatMonotone.

Lemma float_finite_valid (x : float) :
  is_finite x = true <-> finite_valid (Prim2SF x).
Proof.
  split.
  - intros F. pose proof (float_finite_spec x F) as S.
    pose proof (Prim2SF_valid x) as V.
    destruct (Prim2SF x) as [s | s | | s m e]; try contradiction;
      [exact I | exact V].
  - intros V. unfold is_finite, is_nan, is_infinity.
    rewrite !eqb_spec, abs_spec.
    change (Prim2SF infinity) with (S754_infinity false).
    destruct (Prim2SF x) as [s | s | | s m e]; try contradiction.
    + reflexivity.
    + unfold SFeqb. rewrite SFcompare_refl by discriminate. reflexivity.
Qed.

Lemma float_nonneg_finite (x : float) :
  is_finite x = true -> (0 <=? x) = true -> nonneg_finite (Prim2SF x).
Proof.
  rewrite float_finite_valid, leb_spec.
  change (Prim2SF 0) with (S754_zero false).
  destruct (Prim2SF x) as [s | s | | [] m e]; cbn; try tauto; discriminate.
Qed.

Lemma nonneg_canonical_leb (F : spec_float) :
  nonneg_canonical F -> SFleb (S754_zero false) F = true.
Proof.
  destruct F as [s | [] | | [] m e]; cbn; tauto.
Qed.

(** A number between zero and a finite number is finite. *)
Lemma leb_finite (x y : float) :
  (0 <=? x) = true -> (x <=? y) = true -> is_finite y = true ->
  is_finite x = true.
Proof.
  rewrite !float_finite_valid, !leb_spec.
  change (Prim2SF 0) with (S754_zero false).
  pose proof (Prim2SF_valid x) as V.
  destruct (Prim2SF x) as [s | [] | | [] m e];
    destruct (Prim2SF y) as [s' | s' | | s' m' e'];
    cbn; try tauto; try discriminate.
Qed.

Lemma float_sub_0_r (x : float) : x - 0 = x.
Proof.
  apply Prim2SF_inj. rewrite sub_spec.
  change (Prim2SF 0) with (S754_zero false).
  destruct (Prim2SF x) as [[] | [] | | s m e]; reflexivity.
Qed.

(** A difference that is finite has finite operands. *)
Lemma float_sub_finite (x y : float) :
  is_finite (x - y) = true -> is_finite x = true /\ is_finite y = true.
Proof.
  rewrite !float_finite_valid, sub_spec.
  pose proof (Prim2SF_valid x) as Vx. pose proof (Prim2SF_valid y) as Vy.
  destruct (Prim2SF x) as [sx | sx | | sx mx ex];
    destruct (Prim2SF y) as [sy | sy | | sy my ey];
    try (intros _; split; assumption || exact I);
    try destruct sx; try destruct sy; cbn; tauto.
Qed.

Lemma float_sub_mono (x c x' c' : float) :
  is_finite x = true -> is_finite c = true ->
  is_finite x' = true -> is_finite c' = true ->
  (c <=? x) = true -> (x <=? x') = true -> (c' <=? c) = true ->
  (0 <=? x - c) = true /\ (x - c <=? x' - c') = true.
Proof.
  rewrite !float_finite_valid, !leb_spec, !sub_spec.
  change (Prim2SF 0) with (S754_zero false).
  intros Fx Fc Fx' Fc' A B C.
  pose proof (scaled_le _ _ Fc Fx A). pose proof (scaled_le _ _ Fx Fx' B).
  pose proof (scaled_le _ _ Fc' Fc C).
  split.
  - apply nonneg_canonical_leb, SFsub_ord; assumption.
  - apply SFsub_mono; try assumption; lia.
Qed.

Lemma float_positive_finite (d : float) :
  is_finite d = true -> (0 <? d) = true ->
  exists m e, Prim2SF d = S754_finite false m e /\ bounded prec emax m e = true.
Proof.
  rewrite float_finite_valid, ltb_spec.
  change (Prim2SF 0) with (S754_zero false).
  destruct (Prim2SF d) as [s | s | | [] m e]; cbn; try tauto; try discriminate.
  intros B _. exists m, e. split; [reflexivity | exact B].
Qed.

Lemma float_div_mono (a a' d : float) :
  is_finite a' = true -> (0 <=? a) = true -> (a <=? a') = true ->
  is_finite d = true -> (0 <? d) = true ->
  (0 <=? a / d) = true /\ (a / d <=? a' / d) = true.
Proof.
  intros Fa' Pa L Fd Pd.
  pose proof (leb_finite _ _ Pa L Fa') as Fa.
  pose proof (leb_trans _ _ _ Pa L) as Pa'.
  pose proof (float_nonneg_finite _ Fa Pa) as Na.
  pose proof (float_nonneg_finite _ Fa' Pa') as Na'.
  destruct (float_positive_finite d Fd Pd) as (m & e & E & B).
  rewrite leb_spec in L.
  pose proof (scaled_le _ _ (nonneg_finite_valid _ Na)
                (nonneg_finite_valid _ Na') L) as S.
  rewrite leb_spec in Pa. change (Prim2SF 0) with (S754_zero false) in Pa.
  pose proof (scaled_le (S754_zero false) _ I (nonneg_finite_valid _ Na) Pa) as S0.
  cbn [scaled] in S0.
  rewrite !leb_spec, !div_spec, E.
  change (Prim2SF 0) with (S754_zero false).
  split.
  - apply nonneg_canonical_leb, SFdiv_ord; assumption.
  - apply SFdiv_mono; try assumption. lia.
Qed.

Lemma float_mul_mono (g g' rp : float) :
  is_finite g' = true -> (0 <=? g) = true -> (g <=? g') = true ->
  is_finite rp = true -> (0 <=? rp) = true ->
  (0 <=? g * rp) = true /\ (g * rp <=? g' * rp) = true.
Proof.
  intros Fg' Pg L Fr Pr.
  pose proof (leb_finite _ _ Pg L Fg') as Fg.
  pose proof (leb_trans _ _ _ Pg L) as Pg'.
  pose proof (float_nonneg_finite _ Fg Pg) as Ng.
  pose proof (float_nonneg_finite _ Fg' Pg') as Ng'.
  pose proof (float_nonneg_finite _ Fr Pr) as Nr.
  rewrite leb_spec in L, Pg, Pr.
  change (Prim2SF 0) with (S754_zero false) in Pg, Pr.
  pose proof (scaled_le _ _ (nonneg_finite_valid _ Ng)
                (nonneg_finite_valid _ Ng') L) as S.
  pose proof (scaled_le (S754_zero false) _ I (nonneg_finite_valid _ Ng) Pg) as S0.
  pose proof (scaled_le (S754_zero false) _ I (nonneg_finite_valid _ Nr) Pr) as S1.
  cbn [scaled] in S0, S1.
  rewrite !leb_spec, !mul_spec.
  change (Prim2SF 0) with (S754_zero false).
  split.
  - apply nonneg_canonical_leb, SFmul_ord; assumption.
  - apply SFmul_mono; try assumption; lia.
Qed.

End FloatMonotone.

Section FloatOrderMore.

Lemma ltb_leb (x y : float) : (x <? y) = true -> (x <=? y) = true.
Proof. rewrite ltb_Lt, leb_LtEq. tauto. Qed.

(** A number between two finite numbers is finite. *)
Lemma between_finite (lo x hi : float) :
  (lo <=? x) = true -> (x <=? hi) = true ->
  is_finite lo = true -> is_finite hi = true -> is_finite x = true.
Proof.
  rewrite !float_finite_valid, !leb_spec.
  pose proof (Prim2SF_valid x) as V.
  destruct (Prim2SF x) as [s | [] | | s m e];
    destruct (Prim2SF lo) as [s1 | s1 | | [] m1 e1];
    destruct (Prim2SF hi) as [s2 | s2 | | [] m2 e2];
    cbn; try tauto; try discriminate.
Qed.

(** What is neither finite nor a NaN is infinite. *)
Lemma not_finite_infinite (x : float) :
  is_finite x = false -> is_nan x = false -> is_infinity x = true.
Proof.
  unfold is_finite. intros F N. rewrite N in F.
  destruct (is_infinity x); [reflexivity | discriminate].
Qed.

Lemma is_infinity_spec (x : float) :
  is_infinity x = true <-> exists s, Prim2SF x = S754_infinity s.
Proof.
  unfold is_infinity. rewrite eqb_spec, abs_spec.
  change (Prim2SF infinity) with (S754_infinity false).
  destruct (Prim2SF x) as [s | s | | s m e]; cbn; split;
    try discriminate; try (intros [s' E]; discriminate E).
  - intros _. exists s. reflexivity.
  - reflexivity.
Qed.

Lemma eqb_zero_spec (x : float) :
  (x =? 0) = true <-> exists s, Prim2SF x = S754_zero s.
Proof.
  rewrite eqb_spec. change (Prim2SF 0) with (S754_zero false).
  destruct (Prim2SF x) as [s | [] | | [] m e]; cbn; split;
    try discriminate; try (intros [s' E]; discriminate E).
  - intros _. exists s. reflexivity.
  - reflexivity.
Qed.

(** A zero of either sign compares as [0.0] does. *)
Lemma eqb_zero_leb (p y : float) :
  (p =? 0) = true ->
  (0 <=? p) = true /\ ((0 <=? y) = true -> (p <=? y) = true).
Proof.
  rewrite eqb_zero_spec, !leb_spec. intros [s E]. rewrite E.
  change (Prim2SF 0) with (S754_zero false).
  split; [reflexivity |]. destruct (Prim2SF y); cbn; tauto.
Qed.

Lemma nonneg_nonzero_positive (b : float) :
  (0 <=? b) = true -> (b =? 0) = false -> (0 <? b) = true.
Proof.
  rewrite leb_spec, eqb_spec, ltb_spec.
  change (Prim2SF 0) with (S754_zero false).
  destruct (Prim2SF b) as [s | [] | | [] m e]; cbn; congruence.
Qed.

End FloatOrderMore.

Section FloatSpecialValues.

(** A finite number divided by an infinity is a zero. *)
Lemma float_div_infinity (a d : float) :
  is_finite a = true -> is_infinity d = true -> (a / d =? 0) = true.
Proof.
  rewrite float_finite_valid, is_infinity_spec, eqb_zero_spec, div_spec.
  intros F [s E]. rewrite E.
  destruct (Prim2SF a) as [sa | sa | | sa m e]; try contradiction;
    eexists; reflexivity.
Qed.

(** A zero times a finite number is a zero. *)
Lemma float_zero_mul_finite (g x : float) :
  (g =? 0) = true -> is_finite x = true -> (g * x =? 0) = true.
Proof.
  rewrite float_finite_valid, !eqb_zero_spec, mul_spec.
  intros [s E] F. rewrite E.
  destruct (Prim2SF x) as [sx | sx | | sx m e]; try contradiction;
    eexists; reflexivity.
Qed.

(** An infinity minus a finite number is that infinity. *)
Lemma float_infinity_sub (r c : float) :
  is_infinity r = true -> is_finite c = true -> is_infinity (r - c) = true.
Proof.
  rewrite float_finite_valid, !is_infinity_spec, sub_spec.
  intros [s E] F. rewrite E.
  destruct (Prim2SF c) as [sc | sc | | sc m e]; try contradiction;
    eexists; reflexivity.
Qed.

Lemma is_infinity_opp (x : float) : is_infinity (- x) = is_infinity x.
Proof.
  unfold is_infinity. rewrite !eqb_spec, !abs_spec, opp_spec.
  destruct (Prim2SF x); reflexivity.
Qed.

Lemma is_nan_opp (x : float) : is_nan (- x) = is_nan x.
Proof.
  apply eq_true_iff_eq. rewrite !is_nan_spec, opp_spec.
  destruct (Prim2SF x); cbn; split; congruence.
Qed.

End FloatSpecialValues.

(** ** The linear interpolation is monotone and bounded *)

Section LinearFormula.

Variables rp ci r : float.

Hypothesis Frp : is_finite rp = true.
Hypothesis Prp : (0 <=? rp) = true.
Hypothesis Fd : is_finite (r - ci) = true.
Hypothesis Lr : (ci <? r) = true.

(** The fraction of the linear interpolation lies between 0 and 1 and
    does not decrease with the wind speed. *)
Lemma linear_fraction_order (v1 v2 : float) :
  (ci <=? v1) = true -> (v1 <=? v2) = true -> (v2 <=? r) = true ->
  (0 <=? (v1 - ci) / (r - ci)) = true /\
  ((v1 - ci) / (r - ci) <=? (v2 - ci) / (r - ci)) = true /\
  ((v2 - ci) / (r - ci) <=? 1) = true.
Proof.
  intros A B C.
  destruct (float_sub_finite _ _ Fd) as [Fr Fci].
  destruct (ltb_not_nan _ _ Lr) as [Nci Nr].
  pose proof (leb_trans _ _ _ A B) as A2.
  pose proof (leb_trans _ _ _ B C) as C1.
  pose proof (between_finite _ _ _ A C1 Fci Fr) as F1.
  pose proof (between_finite _ _ _ A2 C Fci Fr) as F2.
  pose proof (leb_refl _ Nci) as Rci.
  destruct (float_sub_mono v1 ci v2 ci F1 Fci F2 Fci A B Rci) as [P1 M12].
  destruct (float_sub_mono v2 ci r ci F2 Fci Fr Fci A2 C Rci) as [P2 M2d].
  destruct (float_sub_pos _ _ Lr) as [Pd Zd].
  pose proof (leb_finite _ _ P2 M2d Fd) as Fa2.
  destruct (float_div_mono _ _ _ Fa2 P1 M12 Fd Pd) as [G1 G12].
  destruct (float_div_mono _ _ _ Fd P2 M2d Fd Pd) as [_ G2].
  rewrite (float_div_self _ Fd Zd) in G2.
  repeat split; assumption.
Qed.

(** The value of the linear interpolation lies between 0 and the rated
    power and does not decrease with the wind speed. *)
Lemma linear_formula_order (v1 v2 : float) :
  (ci <=? v1) = true -> (v1 <=? v2) = true -> (v2 <=? r) = true ->
  (0 <=? (v1 - ci) / (r - ci) * rp) = true /\
  ((v1 - ci) / (r - ci) * rp <=? (v2 - ci) / (r - ci) * rp) = true /\
  ((v2 - ci) / (r - ci) * rp <=? rp) = true.
Proof.
  intros A B C.
  destruct (linear_fraction_order v1 v2 A B C) as (G1 & G12 & G2).
  assert (F1 : is_finite 1 = true) by reflexivity.
  pose proof (leb_trans _ _ _ G1 G12) as G2'.
  pose proof (leb_finite _ _ G2' G2 F1) as Fg2.
  destruct (float_mul_mono _ _ rp Fg2 G1 G12 Frp Prp) as [P1 M12].
  destruct (float_mul_mono _ _ rp F1 G2' G2 Frp Prp) as [_ M2].
  rewrite float_mul_1_l in M2.
  repeat split; assumption.
Qed.

End LinearFormula.

(** ** The branches of the function on binary64 numbers *)

Section Binary64Branches.

Variable libm_pow3 : float -> float.
Variables ws rp ci r co : float.

Lemma binary64_valid (o : string) :
  valid_option o ->
  Binary64.wind_turbine_power libm_pow3 ws rp ci r co o
  = Binary64.region_logic libm_pow3 ws rp ci r co o.
Proof.
  intros V. unfold Binary64.wind_turbine_power.
  apply valid_option_accepted in V. rewrite V. reflexivity.
Qed.

(** The ramp is entered when its test holds and cut-out is not reached. *)
Lemma binary64_region_ramp (o : string) :
  Binary64.ramp_test ws ci r = true -> (co <=? ws) = false ->
  Binary64.region_logic libm_pow3 ws rp ci r co o
  = Binary64.ramp_branch libm_pow3 ws rp ci r o.
Proof.
  intros R C. unfold Binary64.region_logic, Binary64.idle_test. rewrite R, C.
  unfold Binary64.ramp_test in R. apply andb_true_iff in R.
  destruct R as [R _]. rewrite (leb_not_ltb _ _ R). reflexivity.
Qed.

(** Under the test of the ramp the divisor of the linear interpolation
    is positive. *)
Lemma binary64_ramp_divisor :
  Binary64.ramp_test ws ci r = true ->
  (0 <? r - ci) = true /\ (r - ci =? 0) = false.
Proof.
  unfold Binary64.ramp_test. rewrite andb_true_iff. intros [A B].
  apply float_sub_pos. exact (leb_ltb_trans _ _ _ A B).
Qed.

Lemma binary64_ramp_linear :
  Binary64.ramp_test ws ci r = true ->
  Binary64.ramp_branch libm_pow3 ws rp ci r "linear"
  = Ok ((ws - ci) / (r - ci) * rp).
Proof.
  intros R. destruct (binary64_ramp_divisor R) as [_ D].
  unfold Binary64.ramp_branch, Binary64.truediv.
  cbn [String.eqb Ascii.eqb Bool.eqb]. rewrite D. reflexivity.
Qed.

Lemma binary64_ramp_cubic (a b : float) :
  Binary64.float_pow3 libm_pow3 ws = Ok a ->
  Binary64.float_pow3 libm_pow3 r = Ok b ->
  Binary64.ramp_branch libm_pow3 ws rp ci r "cubic"
  = (g_v <- Binary64.truediv a b ;; Ok (g_v * rp)).
Proof.
  intros A B. unfold Binary64.ramp_branch.
  cbn [String.eqb Ascii.eqb Bool.eqb]. rewrite A, B. reflexivity.
Qed.

(** In linear mode every call returns. *)
Lemma binary64_linear_returns :
  exists p, Binary64.wind_turbine_power libm_pow3 ws rp ci r co "linear" = Ok p.
Proof.
  rewrite (binary64_valid _ valid_linear). unfold Binary64.region_logic.
  destruct (Binary64.idle_test ws ci co); [eexists; reflexivity |].
  destruct (Binary64.ramp_test ws ci r) eqn:R; [| eexists; reflexivity].
  rewrite (binary64_ramp_linear R). eexists; reflexivity.
Qed.

(** The powers the cubic interpolation computes end in a value or in
    [OverflowError]. *)
Lemma float_pow3_outcomes (x : float) :
  (exists a, Binary64.float_pow3 libm_pow3 x = Ok a) \/
  Binary64.float_pow3 libm_pow3 x = Raise OverflowError.
Proof.
  unfold Binary64.float_pow3.
  destruct (is_nan x); [left; eexists; reflexivity |].
  destruct (is_infinity x); [left; eexists; reflexivity |].
  destruct (x =? 0); [left; eexists; reflexivity |].
  destruct ((if x <? 0 then - x else x) =? 1); [left; eexists; reflexivity |].
  destruct (is_infinity (libm_pow3 (if x <? 0 then - x else x)));
    [right; reflexivity | left; eexists; reflexivity].
Qed.

(** A zero of either sign is its own cube. *)
Lemma float_pow3_zero :
  (r =? 0) = true -> Binary64.float_pow3 libm_pow3 r = Ok r.
Proof.
  intros Z. unfold Binary64.float_pow3.
  destruct (is_nan r); [reflexivity |].
  destruct (is_infinity r); [reflexivity |].
  rewrite Z. reflexivity.
Qed.

End Binary64Branches.

(** The linear formula evaluated at the rated wind speed gives exactly
    [rated_power] when [rated_wind_speed - cut_in_wind_speed] is
    finite. *)
Lemma linear_formula_at_rated_speed_binary64
    (libm_pow3 : float -> float) (rp ci r : float) :
  (ci <? r) = true -> is_finite (r - ci) = true ->
  Binary64.ramp_branch libm_pow3 r rp ci r "linear" = Ok rp.
Proof.
  intros L F. destruct (float_sub_pos _ _ L) as [_ Z].
  unfold Binary64.ramp_branch, Binary64.truediv.
  cbn [String.eqb Ascii.eqb Bool.eqb]. rewrite Z. cbn [bind].
  rewrite (float_div_self _ F Z), float_mul_1_l. reflexivity.
Qed.

Lemma nonneg_below_finite (x y : float) :
  (0 <=? x) = true -> (x <? y) = true -> is_finite x = true.
Proof.
  rewrite float_finite_valid, leb_spec, ltb_spec.
  change (Prim2SF 0) with (S754_zero false).
  pose proof (Prim2SF_valid x) as V.
  destruct (Prim2SF x) as [s | [] | | [] m e];
    destruct (Prim2SF y) as [s' | [] | | s' m' e'];
    cbn; try tauto; try discriminate.
Qed.

Lemma ramp_not_idle (ws ci r co : float) :
  (ci <=? ws) = true -> (ws <? r) = true -> (ws <? co) = true ->
  Binary64.idle_test ws ci co = false /\ Binary64.ramp_test ws ci r = true.
Proof.
  intros A B C. unfold Binary64.idle_test, Binary64.ramp_test.
  rewrite (leb_not_ltb _ _ A), (ltb_not_leb _ _ C), A, B. split; reflexivity.
Qed.

(** ** The linear power curve *)

Lemma finite_not_nan (x : float) : is_finite x = true -> is_nan x = false.
Proof.
  unfold is_finite. rewrite negb_true_iff, orb_false_iff. tauto.
Qed.

Section LinearCurve.

Variable libm_pow3 : float -> float.
Variables ws rp ci r co : float.

(** The value the call returns in linear mode, region by region. *)
Lemma binary64_linear_value :
  Binary64.wind_turbine_power libm_pow3 ws rp ci r co "linear"
  = Ok (if Binary64.idle_test ws ci co then 0
        else if Binary64.ramp_test ws ci r then (ws - ci) / (r - ci) * rp
        else rp).
Proof.
  rewrite (binary64_valid _ _ _ _ _ _ _ valid_linear).
  unfold Binary64.region_logic.
  destruct (Binary64.idle_test ws ci co); [reflexivity |].
  destruct (Binary64.ramp_test ws ci r) eqn:R; [| reflexivity].
  apply binary64_ramp_linear. exact R.
Qed.

(** In the ramp the linear interpolation stays between 0 and the rated
    power, when the divisor does not overflow. *)
Lemma linear_ramp_range :
  is_finite rp = true -> (0 <=? rp) = true -> is_finite (r - ci) = true ->
  Binary64.ramp_test ws ci r = true ->
  (0 <=? (ws - ci) / (r - ci) * rp) = true /\
  ((ws - ci) / (r - ci) * rp <=? rp) = true.
Proof.
  intros Frp Prp Fd R. unfold Binary64.ramp_test in R.
  apply andb_true_iff in R. destruct R as [A B].
  pose proof (leb_ltb_trans _ _ _ A B) as Lr.
  destruct (ltb_not_nan _ _ B) as [N _].
  destruct (linear_formula_order rp ci r Frp Prp Fd Lr ws ws A
              (leb_refl _ N) (ltb_leb _ _ B)) as (P & _ & U).
  split; assumption.
Qed.

(** The same with a cut-in wind speed that is not negative, whatever the
    rated wind speed, plus infinity included. *)
Lemma linear_ramp_range_nonneg_cut_in :
  is_finite rp = true -> (0 <=? rp) = true -> (0 <=? ci) = true ->
  Binary64.ramp_test ws ci r = true ->
  (0 <=? (ws - ci) / (r - ci) * rp) = true /\
  ((ws - ci) / (r - ci) * rp <=? rp) = true.
Proof.
  intros Frp Prp Pci R.
  assert (F0 : is_finite 0 = true) by reflexivity.
  destruct (is_finite r) eqn:Fr.
  - apply linear_ramp_range; try assumption.
    unfold Binary64.ramp_test in R. apply andb_true_iff in R.
    destruct R as [A B].
    pose proof (ltb_leb _ _ (leb_ltb_trans _ _ _ A B)) as Lr.
    pose proof (between_finite _ _ _ Pci Lr F0 Fr) as Fci.
    destruct (float_sub_mono r ci r 0 Fr Fci Fr F0 Lr
                (leb_refl _ (finite_not_nan _ Fr)) Pci) as [P U].
    rewrite float_sub_0_r in U.
    exact (leb_finite _ _ P U Fr).
  - unfold Binary64.ramp_test in R. apply andb_true_iff in R.
    destruct R as [A B].
    destruct (ltb_not_nan _ _ B) as [Nws Nr].
    pose proof (not_finite_infinite _ Fr Nr) as Ir.
    assert (Fws : is_finite ws = true).
    { destruct (is_finite ws) eqn:Fws; [reflexivity | exfalso].
      pose proof (not_finite_infinite _ Fws Nws) as Iws.
      pose proof (leb_trans _ _ _ Pci A) as Pws.
      rewrite is_infinity_spec in Iws, Ir.
      destruct Iws as [s1 E1]. destruct Ir as [s2 E2].
      rewrite ltb_spec in B. rewrite leb_spec in Pws.
      rewrite E1, E2 in B. rewrite E1 in Pws.
      change (Prim2SF 0) with (S754_zero false) in Pws.
      destruct s1, s2; cbn in B, Pws; discriminate. }
    pose proof (between_finite _ _ _ Pci A F0 Fws) as Fci.
    pose proof (float_infinity_sub _ _ Ir Fci) as Id.
    destruct (float_sub_mono ws ci ws 0 Fws Fci Fws F0 A
                (leb_refl _ Nws) Pci) as [P U].
    rewrite float_sub_0_r in U.
    pose proof (leb_finite _ _ P U Fws) as Fa.
    pose proof (float_div_infinity _ _ Fa Id) as Zg.
    pose proof (float_zero_mul_finite _ _ Zg Frp) as Zp.
    destruct (eqb_zero_leb _ rp Zp) as [P0 U0].
    split; [exact P0 | exact (U0 Prp)].
Qed.

End LinearCurve.

(** The powers of [float_pow3] are finite on finite arguments, unless
    the C library returns a NaN. *)
Lemma float_pow3_finite (libm_pow3 : float -> float) (x a : float) :
  is_finite x = true -> Binary64.float_pow3 libm_pow3 x = Ok a ->
  is_nan a = false -> is_finite a = true.
Proof.
  intros F. unfold Binary64.float_pow3.
  destruct (is_nan x); [intros [= <-] _; exact F |].
  destruct (is_infinity x); [intros [= <-] _; exact F |].
  destruct (x =? 0); [intros [= <-] _; exact F |].
  destruct ((if x <? 0 then - x else x) =? 1).
  - intros [= <-] _. destruct (x <? 0); reflexivity.
  - destruct (is_infinity (libm_pow3 (if x <? 0 then - x else x))) eqn:I;
      [discriminate |].
    intros [= <-] N. unfold is_finite. rewrite N.
    destruct (x <? 0); [rewrite is_infinity_opp |]; rewrite I; reflexivity.
Qed.

(** In the ramp the cubic interpolation stays between 0 and the rated
    power, when the two cubes are ordered as their arguments are. *)
Lemma cubic_ramp_range (rp a b : float) :
  is_finite rp = true -> (0 <=? rp) = true ->
  is_finite a = true -> (0 <=? a) = true -> (a <=? b) = true ->
  (b =? 0) = false ->
  (0 <=? a / b * rp) = true /\ (a / b * rp <=? rp) = true.
Proof.
  intros Frp Prp Fa Pa L Z.
  assert (F1 : is_finite 1 = true) by reflexivity.
  destruct (leb_not_nan _ _ L) as [_ Nb].
  destruct (is_finite b) eqn:Fb.
  - pose proof (nonneg_nonzero_positive _ (leb_trans _ _ _ Pa L) Z) as Pb.
    destruct (float_div_mono _ _ _ Fb Pa L Fb Pb) as [G0 G1].
    rewrite (float_div_self _ Fb Z) in G1.
    destruct (float_mul_mono _ _ rp F1 G0 G1 Frp Prp) as [P U].
    rewrite float_mul_1_l in U. split; assumption.
  - pose proof (not_finite_infinite _ Fb Nb) as Ib.
    pose proof (float_div_infinity _ _ Fa Ib) as Zg.
    pose proof (float_zero_mul_finite _ _ Zg Frp) as Zp.
    destruct (eqb_zero_leb _ rp Zp) as [P0 U0].
    split; [exact P0 | exact (U0 Prp)].
Qed.

(** ** Region 2 on binary64 numbers: the linear ramp *)




(** ** Region 2 on binary64 numbers: the cubic ramp *)

(** C4, as stated, fails in four ways: past cut-out the first test gives
    [0.0]; a cut-in of [2^-400], which is not zero, has a cube that
    underflows, and the value at cut-in is [0.0]; a rated wind speed of
    [2^-399], which is not zero, has a cube that underflows to [0.0], and
    the division raises [ZeroDivisionError]; and a wind speed of [2^400]
    has a cube that overflows, and [**] raises [OverflowError]. *)
Lemma cubic_ramp_value_counterexample :
  ((3 <=? 7) = true /\ (7 <? 11) = true /\
   Binary64.wind_turbine_power Binary64.correctly_rounded_cube
     7 15 3 11 5 "cubic" = Ok 0)
  /\
  ((0x1p-400 <=? 0x1p-400) = true /\ (0x1p-400 <? 11) = true /\
   (0x1p-400 =? 0) = false /\
   Binary64.wind_turbine_power Binary64.correctly_rounded_cube
     0x1p-400 15 0x1p-400 11 25 "cubic" = Ok 0)
  /\
  ((0 <=? 0x1p-400) = true /\ (0x1p-400 <? 0x1p-399) = true /\
   (0x1p-399 =? 0) = false /\
   Binary64.wind_turbine_power Binary64.correctly_rounded_cube
     0x1p-400 15 0 0x1p-399 25 "cubic" = Raise ZeroDivisionError)
  /\
  ((3 <=? 0x1p400) = true /\ (0x1p400 <? 0x1p401) = true /\
   Binary64.wind_turbine_power Binary64.correctly_rounded_cube
     0x1p400 15 3 0x1p401 0x1p1000 "cubic" = Raise OverflowError).
Proof. repeat split; vm_compute; reflexivity. Qed.

(** C4, amended: in cubic mode, for doubles with
    [cut_in_wind_speed <= wind_speed < rated_wind_speed] and
    [wind_speed < cut_out_wind_speed], when neither [wind_speed**3] nor
    [rated_wind_speed**3] overflows and [rated_wind_speed**3] is not
    zero, the call returns the double
    [((wind_speed**3) / (rated_wind_speed**3)) * rated_power], the
    un-normalized cubic form with a rounding at each operation; at
    [wind_speed == cut_in_wind_speed] this is
    [((cut_in_wind_speed**3) / (rated_wind_speed**3)) * rated_power],
    which may be zero. *)
Theorem cubic_ramp_value_binary64
    (libm_pow3 : float -> float) (ws rp ci r co a b : float) :
  (ci <=? ws) = true -> (ws <? r) = true ->
  (ws <? co) = true ->
  Binary64.float_pow3 libm_pow3 ws = Ok a ->
  Binary64.float_pow3 libm_pow3 r = Ok b ->
  (b =? 0) = false ->
  Binary64.wind_turbine_power libm_pow3 ws rp ci r co "cubic"
  = Ok (a / b * rp).
Proof.
  intros A B C Pa Pb Z.
  assert (R : Binary64.ramp_test ws ci r = true)
    by (unfold Binary64.ramp_test; rewrite A, B; reflexivity).
  rewrite (binary64_valid _ _ _ _ _ _ _ valid_cubic).
  rewrite binary64_region_ramp by (try exact R; apply ltb_not_leb, C).
  rewrite (binary64_ramp_cubic _ _ _ _ _ _ _ Pa Pb).
  unfold Binary64.truediv. rewrite Z. reflexivity.
Qed.

Lemma cubic_ramp_value_binary64_witness :
  (3 <=? 3) = true /\ (3 <? 11) = true /\ (3 <? 25) = true /\
  Binary64.float_pow3 Binary64.correctly_rounded_cube 3 = Ok 27 /\
  Binary64.float_pow3 Binary64.correctly_rounded_cube 11 = Ok 1331 /\
  (1331 =? 0) = false /\
  Binary64.wind_turbine_power Binary64.correctly_rounded_cube
    3 15 3 11 25 "cubic"
  = Ok (27 / 1331 * 15).
Proof.
  assert (A : (3 <=? 3) = true) by reflexivity.
  assert (B : (3 <? 11) = true) by reflexivity.
  assert (C : (3 <? 25) = true) by reflexivity.
  assert (Pa : Binary64.float_pow3 Binary64.correctly_rounded_cube 3 = Ok 27)
    by (vm_compute; reflexivity).
  assert (Pb : Binary64.float_pow3 Binary64.correctly_rounded_cube 11
               = Ok 1331)
    by (vm_compute; reflexivity).
  assert (Z : (1331 =? 0) = false) by reflexivity.
  split; [exact A |]. split; [exact B |]. split; [exact C |].
  split; [exact Pa |]. split; [exact Pb |]. split; [exact Z |].
  exact (cubic_ramp_value_binary64 Binary64.correctly_rounded_cube
           3 15 3 11 25 27 1331 A B C Pa Pb Z).
Defined.

(** ** The linear ramp does not decrease *)

(** C6 fails as stated, on four counts.  Strictness is lost to rounding:
    with the default parameters two adjacent doubles near 7.5 give the
    same power.  A cut-out wind speed inside the ramp makes the result
    fall back to zero.  An infinite rated power gives NaN at cut-in.  And
    when [rated_wind_speed - cut_in_wind_speed] overflows, the results
    in the ramp are 0.0 or NaN, and the formula at the rated wind speed
    is NaN. *)
Lemma linear_ramp_strictly_increasing_counterexample :
  ((3 <? 11) = true /\ (0 <? 15) = true /\
   (3 <=? 0x1.e000000000008p+2) = true /\
   (0x1.e000000000008p+2 <? 0x1.e000000000009p+2) = true /\
   (0x1.e000000000009p+2 <? 11) = true /\
   Binary64.wind_turbine_power Binary64.correctly_rounded_cube
     0x1.e000000000008p+2 15 3 11 25 "linear" = Ok 0x1.0e00000000008p+3 /\
   Binary64.wind_turbine_power Binary64.correctly_rounded_cube
     0x1.e000000000009p+2 15 3 11 25 "linear" = Ok 0x1.0e00000000008p+3 /\
   (0x1.0e00000000008p+3 <? 0x1.0e00000000008p+3) = false)
  /\
  ((3 <=? 4) = true /\ (4 <? 7) = true /\ (7 <? 11) = true /\
   Binary64.wind_turbine_power Binary64.correctly_rounded_cube
     4 15 3 11 5 "linear" = Ok 0x1.ep+0 /\
   Binary64.wind_turbine_power Binary64.correctly_rounded_cube
     7 15 3 11 5 "linear" = Ok 0 /\
   (0x1.ep+0 <=? 0) = false)
  /\
  ((0 <? infinity) = true /\ (3 <=? 3) = true /\ (3 <? 7) = true /\
   (7 <? 11) = true /\
   Binary64.wind_turbine_power Binary64.correctly_rounded_cube
     3 infinity 3 11 25 "linear" = Ok nan /\
   Binary64.wind_turbine_power Binary64.correctly_rounded_cube
     7 infinity 3 11 25 "linear" = Ok infinity /\
   (nan <=? infinity) = false)
  /\
  ((-0x1p1023 <? 0x1p1023) = true /\ (-0x1p1023 <=? 0) = true /\
   (0 <? 0x1.fffffffffffffp1022) = true /\
   (0x1.fffffffffffffp1022 <? 0x1p1023) = true /\
   Binary64.wind_turbine_power Binary64.correctly_rounded_cube
     0 15 (-0x1p1023) 0x1p1023 infinity "linear" = Ok 0 /\
   Binary64.wind_turbine_power Binary64.correctly_rounded_cube
     0x1.fffffffffffffp1022 15 (-0x1p1023) 0x1p1023 infinity "linear"
   = Ok nan /\
   (0 <=? nan) = false /\
   Binary64.ramp_branch Binary64.correctly_rounded_cube
     0x1p1023 15 (-0x1p1023) 0x1p1023 "linear" = Ok nan).
Proof. repeat split; vm_compute; reflexivity. Qed.

(** C6, amended: in linear mode, for a finite rated power above zero and
    parameters whose difference [rated_wind_speed - cut_in_wind_speed]
    does not overflow, the result does not decrease with the wind speed
    on the ramp below cut-out: for wind speeds [v1 <= v2] of
    [[cut_in_wind_speed, rated_wind_speed)] below cut-out, both calls
    return and [result v1 <= result v2]; and the interpolation formula
    evaluated at the rated wind speed yields exactly the rated power. *)
Theorem linear_ramp_nondecreasing_binary64
    (libm_pow3 : float -> float) (v1 v2 rp ci r co : float) :
  is_finite rp = true -> (0 <? rp) = true ->
  is_finite (r - ci) = true ->
  (ci <=? v1) = true -> (v1 <=? v2) = true -> (v2 <? r) = true ->
  (v2 <? co) = true ->
  (exists p1 p2,
     Binary64.wind_turbine_power libm_pow3 v1 rp ci r co "linear" = Ok p1 /\
     Binary64.wind_turbine_power libm_pow3 v2 rp ci r co "linear" = Ok p2 /\
     (p1 <=? p2) = true) /\
  Binary64.ramp_branch libm_pow3 r rp ci r "linear" = Ok rp.
Proof.
  intros Frp Prp Fd A B C D.
  pose proof (leb_trans _ _ _ A B) as A2.
  pose proof (leb_ltb_trans _ _ _ B C) as C1.
  pose proof (leb_ltb_trans _ _ _ B D) as D1.
  pose proof (leb_ltb_trans _ _ _ A2 C) as Lr.
  split; [| exact (linear_formula_at_rated_speed_binary64 _ _ _ _ Lr Fd)].
  destruct (ramp_not_idle _ _ _ _ A C1 D1) as [I1 R1].
  destruct (ramp_not_idle _ _ _ _ A2 C D) as [I2 R2].
  eexists; eexists.
  rewrite !binary64_linear_value, I1, I2, R1, R2.
  split; [reflexivity |]. split; [reflexivity |].
  destruct (linear_formula_order rp ci r Frp (ltb_leb _ _ Prp) Fd Lr
              v1 v2 A B (ltb_leb _ _ C)) as (_ & M & _).
  exact M.
Qed.

Lemma linear_ramp_nondecreasing_binary64_witness :
  is_finite 15 = true /\ (0 <? 15) = true /\ is_finite (11 - 3) = true /\
  (3 <=? 5) = true /\ (5 <=? 7) = true /\ (7 <? 11) = true /\
  (7 <? 25) = true /\
  (exists p1 p2,
     Binary64.wind_turbine_power Binary64.correctly_rounded_cube
       5 15 3 11 25 "linear" = Ok p1 /\
     Binary64.wind_turbine_power Binary64.correctly_rounded_cube
       7 15 3 11 25 "linear" = Ok p2 /\
     (p1 <=? p2) = true) /\
  Binary64.ramp_branch Binary64.correctly_rounded_cube 11 15 3 11 "linear"
  = Ok 15.
Proof.
  assert (Frp : is_finite 15 = true) by reflexivity.
  assert (Prp : (0 <? 15) = true) by reflexivity.
  assert (Fd : is_finite (11 - 3) = true) by reflexivity.
  assert (A : (3 <=? 5) = true) by reflexivity.
  assert (B : (5 <=? 7) = true) by reflexivity.
  assert (C : (7 <? 11) = true) by reflexivity.
  assert (D : (7 <? 25) = true) by reflexivity.
  split; [exact Frp |]. split; [exact Prp |]. split; [exact Fd |].
  split; [exact A |]. split; [exact B |]. split; [exact C |].
  split; [exact D |].
  exact (linear_ramp_nondecreasing_binary64 Binary64.correctly_rounded_cube
           5 7 15 3 11 25 Frp Prp Fd A B C D).
Defined.

(** ** The cubic formula at the rated wind speed *)




(** ** Divisions on binary64 numbers *)

(** C9, as stated, fails: the cubic branch divides too, by
    [rated_wind_speed ** 3], which is zero for a rated wind speed of zero
    and for one of [2^-399], whose cube underflows; in both cases a wind
    speed of the ramp makes the call raise [ZeroDivisionError]. *)
Lemma cubic_division_by_zero_counterexample :
  (valid_option "cubic" /\
   Binary64.wind_turbine_power Binary64.correctly_rounded_cube
     (- 1) 15 (- 2) 0 25 "cubic" = Raise ZeroDivisionError)
  /\
  ((0 <? 0x1p-399) = true /\ (0x1p-399 <? 25) = true /\
   Binary64.wind_turbine_power Binary64.correctly_rounded_cube
     0x1p-400 15 0 0x1p-399 25 "cubic" = Raise ZeroDivisionError).
Proof.
  split; [split; [exact valid_cubic | vm_compute; reflexivity] |].
  repeat split; vm_compute; reflexivity.
Qed.

(** C9, amended: for all doubles, ordered or not, the call in linear mode
    returns, and its division by [rated_wind_speed - cut_in_wind_speed]
    is reached only under
    [cut_in_wind_speed <= wind_speed < rated_wind_speed], where the
    divisor is positive.  In cubic mode there is a second division, by
    [rated_wind_speed**3], and the call raises [ZeroDivisionError]
    exactly when the wind speed passes the test of the ramp, has not
    reached cut-out, both powers are computed without overflow, and
    [rated_wind_speed**3] is zero; a rated wind speed of zero is its own
    cube. *)
Theorem division_by_zero_binary64
    (libm_pow3 : float -> float) (ws rp ci r co : float) :
  (exists p,
     Binary64.wind_turbine_power libm_pow3 ws rp ci r co "linear" = Ok p) /\
  (Binary64.ramp_test ws ci r = true ->
   (0 <? r - ci) = true /\ (r - ci =? 0) = false) /\
  (Binary64.wind_turbine_power libm_pow3 ws rp ci r co "cubic"
   = Raise ZeroDivisionError
   <-> Binary64.ramp_test ws ci r = true /\ (co <=? ws) = false /\
       exists a b,
         Binary64.float_pow3 libm_pow3 ws = Ok a /\
         Binary64.float_pow3 libm_pow3 r = Ok b /\
         (b =? 0) = true) /\
  ((r =? 0) = true -> Binary64.float_pow3 libm_pow3 r = Ok r).
Proof.
  split; [apply binary64_linear_returns |].
  split; [apply binary64_ramp_divisor |].
  split; [| apply float_pow3_zero].
  rewrite (binary64_valid _ _ _ _ _ _ _ valid_cubic). split.
  - unfold Binary64.region_logic, Binary64.idle_test.
    destruct (ws <? ci) eqn:I1; cbn [orb]; [discriminate |].
    destruct (co <=? ws) eqn:I2; cbn [orb]; [discriminate |].
    destruct (Binary64.ramp_test ws ci r) eqn:R; [| discriminate].
    unfold Binary64.ramp_branch. cbn [String.eqb Ascii.eqb Bool.eqb].
    destruct (float_pow3_outcomes libm_pow3 ws) as [[a Pa] | Pa];
      rewrite Pa; cbn [bind]; [| discriminate].
    destruct (float_pow3_outcomes libm_pow3 r) as [[b Pb] | Pb];
      rewrite Pb; cbn [bind]; [| discriminate].
    unfold Binary64.truediv. destruct (b =? 0) eqn:Z; cbn [bind];
      [| discriminate].
    intros _. repeat split. exists a, b. repeat split; assumption.
  - intros (R & C & a & b & Pa & Pb & Z).
    rewrite binary64_region_ramp by assumption.
    rewrite (binary64_ramp_cubic _ _ _ _ _ _ _ Pa Pb).
    unfold Binary64.truediv. rewrite Z. reflexivity.
Qed.

(** ** The range of the result *)

(** C10 fails as stated: an infinite rated power gives NaN at cut-in in
    linear mode, and in cubic mode the call can raise instead of
    returning, here because the cube of the rated wind speed underflows
    to zero. *)
Lemma result_range_counterexample :
  ((0 <? infinity) = true /\ (0 <=? 3) = true /\ (3 <? 11) = true /\
   Binary64.wind_turbine_power Binary64.correctly_rounded_cube
     3 infinity 3 11 25 "linear" = Ok nan /\
   (0 <=? nan) = false /\ (nan <=? infinity) = false)
  /\
  ((0 <? 15) = true /\ (0 <=? 0) = true /\ (0 <? 0x1p-399) = true /\
   Binary64.wind_turbine_power Binary64.correctly_rounded_cube
     0x1p-400 15 0 0x1p-399 25 "cubic" = Raise ZeroDivisionError).
Proof. repeat split; vm_compute; reflexivity. Qed.

(** C10, amended: for a finite rated power above zero and
    [0 <= cut_in_wind_speed < rated_wind_speed], in linear mode the call
    returns, for every wind speed (a NaN included) and every cut-out wind
    speed, a value of the closed interval from 0 to the rated power.  In
    cubic mode the call returns a value of that interval provided that,
    when the ramp is entered, the two cubes are computed, that of the
    rated wind speed is not zero, and they are ordered as their
    arguments are: [0 <= wind_speed**3 <= rated_wind_speed**3]. *)
Theorem result_range_binary64
    (libm_pow3 : float -> float) (ws rp ci r co : float) :
  is_finite rp = true -> (0 <? rp) = true ->
  (0 <=? ci) = true -> (ci <? r) = true ->
  (exists p,
     Binary64.wind_turbine_power libm_pow3 ws rp ci r co "linear" = Ok p /\
     (0 <=? p) = true /\ (p <=? rp) = true)
  /\
  ((Binary64.ramp_test ws ci r = true -> (co <=? ws) = false ->
    exists a b,
      Binary64.float_pow3 libm_pow3 ws = Ok a /\
      Binary64.float_pow3 libm_pow3 r = Ok b /\
      (b =? 0) = false /\ (0 <=? a) = true /\ (a <=? b) = true) ->
   exists p,
     Binary64.wind_turbine_power libm_pow3 ws rp ci r co "cubic" = Ok p /\
     (0 <=? p) = true /\ (p <=? rp) = true).
Proof.
  intros Frp Prp Pci Lr.
  pose proof (ltb_leb _ _ Prp) as Prp'.
  pose proof (leb_refl _ (finite_not_nan _ Frp)) as Rrp.
  split.
  - eexists. rewrite binary64_linear_value. split; [reflexivity |].
    destruct (Binary64.idle_test ws ci co); [split; [reflexivity | exact Prp'] |].
    destruct (Binary64.ramp_test ws ci r) eqn:R; [| split; assumption].
    apply linear_ramp_range_nonneg_cut_in; assumption.
  - intros Hc. rewrite (binary64_valid _ _ _ _ _ _ _ valid_cubic).
    unfold Binary64.region_logic.
    destruct (Binary64.idle_test ws ci co) eqn:Id.
    { eexists. split; [reflexivity |]. split; [reflexivity | exact Prp']. }
    destruct (Binary64.ramp_test ws ci r) eqn:R.
    2:{ eexists. split; [reflexivity |]. split; assumption. }
    unfold Binary64.idle_test in Id. apply orb_false_iff in Id.
    destruct Id as [_ Co].
    destruct (Hc eq_refl Co) as (a & b & Pa & Pb & Z & P0 & L).
    rewrite (binary64_ramp_cubic _ _ _ _ _ _ _ Pa Pb).
    unfold Binary64.truediv. rewrite Z. cbn [bind].
    eexists. split; [reflexivity |].
    unfold Binary64.ramp_test in R. apply andb_true_iff in R.
    destruct R as [A B].
    pose proof (nonneg_below_finite _ _ (leb_trans _ _ _ Pci A) B) as Fws.
    destruct (leb_not_nan _ _ L) as [Na _].
    pose proof (float_pow3_finite _ _ _ Fws Pa Na) as Fa.
    apply cubic_ramp_range; assumption.
Qed.

Lemma result_range_binary64_witness :
  is_finite 15 = true /\ (0 <? 15) = true /\
  (0 <=? 3) = true /\ (3 <? 11) = true /\
  (exists p,
     Binary64.wind_turbine_power Binary64.correctly_rounded_cube
       7 15 3 11 25 "linear" = Ok p /\
     (0 <=? p) = true /\ (p <=? 15) = true) /\
  (exists p,
     Binary64.wind_turbine_power Binary64.correctly_rounded_cube
       7 15 3 11 25 "cubic" = Ok p /\
     (0 <=? p) = true /\ (p <=? 15) = true).
Proof.
  assert (Frp : is_finite 15 = true) by reflexivity.
  assert (Prp : (0 <? 15) = true) by reflexivity.
  assert (Pci : (0 <=? 3) = true) by reflexivity.
  assert (Lr : (3 <? 11) = true) by reflexivity.
  split; [exact Frp |]. split; [exact Prp |].
  split; [exact Pci |]. split; [exact Lr |].
  destruct (result_range_binary64 Binary64.correctly_rounded_cube
              7 15 3 11 25 Frp Prp Pci Lr) as [Lin Cub].
  split; [exact Lin |].
  apply Cub. intros _ _. exists 343, 1331.
  repeat split; vm_compute; reflexivity.
Defined.

(** ** Further properties on binary64 numbers *)

(** X1: every call on doubles, whatever its arguments and whatever the
    C library, ends in one of four ways: it returns a number, it raises
    the [ValueError] of the validation, it raises [ZeroDivisionError], or
    it raises [OverflowError]; the [return] of the ramp never reads an
    unassigned [g_v], although the [if] / [elif] that assigns it has no
    [else]. *)
Theorem call_outcomes_binary64
    (libm_pow3 : float -> float) (ws rp ci r co : float) (o : string) :
  ((exists p,
      Binary64.wind_turbine_power libm_pow3 ws rp ci r co o = Ok p) \/
   Binary64.wind_turbine_power libm_pow3 ws rp ci r co o
     = Raise (ValueError invalid_option_message) \/
   Binary64.wind_turbine_power libm_pow3 ws rp ci r co o
     = Raise ZeroDivisionError \/
   Binary64.wind_turbine_power libm_pow3 ws rp ci r co o
     = Raise OverflowError) /\
  (forall name,
     Binary64.wind_turbine_power libm_pow3 ws rp ci r co o
     <> Raise (UnboundLocalError name)).
Proof.
  assert (D : (exists p,
      Binary64.wind_turbine_power libm_pow3 ws rp ci r co o = Ok p) \/
   Binary64.wind_turbine_power libm_pow3 ws rp ci r co o
     = Raise (ValueError invalid_option_message) \/
   Binary64.wind_turbine_power libm_pow3 ws rp ci r co o
     = Raise ZeroDivisionError \/
   Binary64.wind_turbine_power libm_pow3 ws rp ci r co o
     = Raise OverflowError).
  { unfold Binary64.wind_turbine_power.
    destruct (str_in o ["linear"; "cubic"]) eqn:V; cbn [negb];
      [| right; left; reflexivity].
    apply valid_option_accepted in V.
    unfold Binary64.region_logic.
    destruct (Binary64.idle_test ws ci co); [left; eexists; reflexivity |].
    destruct (Binary64.ramp_test ws ci r) eqn:R;
      [| left; eexists; reflexivity].
    destruct V as [-> | ->].
    - rewrite (binary64_ramp_linear _ _ _ _ _ R). left; eexists; reflexivity.
    - unfold Binary64.ramp_branch. cbn [String.eqb Ascii.eqb Bool.eqb].
      destruct (float_pow3_outcomes libm_pow3 ws) as [[a Pa] | Pa];
        rewrite Pa; cbn [bind]; [| right; right; right; reflexivity].
      destruct (float_pow3_outcomes libm_pow3 r) as [[b Pb] | Pb];
        rewrite Pb; cbn [bind]; [| right; right; right; reflexivity].
      unfold Binary64.truediv. destruct (b =? 0); cbn [bind];
        [right; right; left; reflexivity | left; eexists; reflexivity]. }
  split; [exact D |].
  intros name E.
  destruct D as [[p D] | [D | [D | D]]]; rewrite D in E; discriminate E.
Qed.

(** X5: in linear mode, for a finite rated power that is not negative
    and parameters whose difference
    [rated_wind_speed - cut_in_wind_speed] does not overflow, the call
    returns a value between 0 and the rated power for every wind speed,
    a NaN included, and all speed parameters, ordered or not. *)
Theorem result_range_linear_binary64
    (libm_pow3 : float -> float) (ws rp ci r co : float) :
  is_finite rp = true -> (0 <=? rp) = true ->
  is_finite (r - ci) = true ->
  exists p,
    Binary64.wind_turbine_power libm_pow3 ws rp ci r co "linear" = Ok p /\
    (0 <=? p) = true /\ (p <=? rp) = true.
Proof.
  intros Frp Prp Fd.
  pose proof (leb_refl _ (finite_not_nan _ Frp)) as Rrp.
  eexists. rewrite binary64_linear_value. split; [reflexivity |].
  destruct (Binary64.idle_test ws ci co); [split; [reflexivity | exact Prp] |].
  destruct (Binary64.ramp_test ws ci r) eqn:R; [| split; assumption].
  apply linear_ramp_range; assumption.
Qed.

Lemma result_range_linear_binary64_witness :
  is_finite 15 = true /\ (0 <=? 15) = true /\ is_finite (11 - 3) = true /\
  exists p,
    Binary64.wind_turbine_power Binary64.correctly_rounded_cube
      7 15 3 11 25 "linear" = Ok p /\
    (0 <=? p) = true /\ (p <=? 15) = true.
Proof.
  assert (Frp : is_finite 15 = true) by reflexivity.
  assert (Prp : (0 <=? 15) = true) by reflexivity.
  assert (Fd : is_finite (11 - 3) = true) by reflexivity.
  split; [exact Frp |]. split; [exact Prp |]. split; [exact Fd |].
  exact (result_range_linear_binary64 Binary64.correctly_rounded_cube
           7 15 3 11 25 Frp Prp Fd).
Defined.

(** X6: in linear mode, below cut-out the power curve never decreases,
    across the idle region, the ramp and the plateau: for a finite rated
    power that is not negative and parameters whose difference
    [rated_wind_speed - cut_in_wind_speed] does not overflow,
    [ws1 <= ws2 < cut_out_wind_speed] implies
    [result ws1 <= result ws2]. *)
Theorem linear_curve_nondecreasing_binary64
    (libm_pow3 : float -> float) (ws1 ws2 rp ci r co : float) :
  is_finite rp = true -> (0 <=? rp) = true ->
  is_finite (r - ci) = true ->
  (ws1 <=? ws2) = true -> (ws2 <? co) = true ->
  exists p1 p2,
    Binary64.wind_turbine_power libm_pow3 ws1 rp ci r co "linear" = Ok p1 /\
    Binary64.wind_turbine_power libm_pow3 ws2 rp ci r co "linear" = Ok p2 /\
    (p1 <=? p2) = true.
Proof.
  intros Frp Prp Fd L C.
  destruct (float_sub_finite _ _ Fd) as [Fr Fci].
  pose proof (finite_not_nan _ Fr) as Nr.
  pose proof (finite_not_nan _ Fci) as Nci.
  destruct (leb_not_nan _ _ L) as [N1 N2].
  pose proof (leb_ltb_trans _ _ _ L C) as C1.
  pose proof (leb_refl _ (finite_not_nan _ Frp)) as Rrp.
  eexists; eexists. rewrite !binary64_linear_value.
  split; [reflexivity |]. split; [reflexivity |].
  unfold Binary64.idle_test.
  rewrite (ltb_not_leb _ _ C), (ltb_not_leb _ _ C1), !orb_false_r.
  destruct (ws1 <? ci) eqn:I1.
  - destruct (ws2 <? ci) eqn:I2; [reflexivity |].
    destruct (Binary64.ramp_test ws2 ci r) eqn:R2; [| exact Prp].
    apply (linear_ramp_range ws2 rp ci r); assumption.
  - pose proof (not_ltb_leb _ _ N1 Nci I1) as A1.
    pose proof (leb_trans _ _ _ A1 L) as A2.
    rewrite (leb_not_ltb _ _ A2).
    unfold Binary64.ramp_test. rewrite A1, A2. cbn [andb].
    destruct (ws1 <? r) eqn:R1.
    + pose proof (leb_ltb_trans _ _ _ A1 R1) as Lr.
      destruct (ws2 <? r) eqn:R2.
      * destruct (linear_formula_order rp ci r Frp Prp Fd Lr
                    ws1 ws2 A1 L (ltb_leb _ _ R2)) as (_ & M & _).
        exact M.
      * apply (linear_ramp_range ws1 rp ci r); try assumption.
        unfold Binary64.ramp_test. rewrite A1, R1. reflexivity.
    + pose proof (not_ltb_leb _ _ N1 Nr R1) as B1.
      rewrite (leb_not_ltb _ _ (leb_trans _ _ _ B1 L)). exact Rrp.
Qed.

Lemma linear_curve_nondecreasing_binary64_witness :
  is_finite 15 = true /\ (0 <=? 15) = true /\ is_finite (11 - 3) = true /\
  (5 <=? 20) = true /\ (20 <? 25) = true /\
  exists p1 p2,
    Binary64.wind_turbine_power Binary64.correctly_rounded_cube
      5 15 3 11 25 "linear" = Ok p1 /\
    Binary64.wind_turbine_power Binary64.correctly_rounded_cube
      20 15 3 11 25 "linear" = Ok p2 /\
    (p1 <=? p2) = true.
Proof.
  assert (Frp : is_finite 15 = true) by reflexivity.
  assert (Prp : (0 <=? 15) = true) by reflexivity.
  assert (Fd : is_finite (11 - 3) = true) by reflexivity.
  assert (L : (5 <=? 20) = true) by reflexivity.
  assert (C : (20 <? 25) = true) by reflexivity.
  split; [exact Frp |]. split; [exact Prp |]. split; [exact Fd |].
  split; [exact L |]. split; [exact C |].
  exact (linear_curve_nondecreasing_binary64 Binary64.correctly_rounded_cube
           5 20 15 3 11 25 Frp Prp Fd L C).
Defined.

(** X7: in cubic mode the result does not decrease on the ramp below
    cut-out, as far as the cubes computed by the C library do not: for a
    finite rated power that is not negative and wind speeds [v1 <= v2]
    of the ramp whose cubes are computed with
    [0 <= v1**3 <= v2**3 <= rated_wind_speed**3], the last one finite
    and not zero, both calls return and [result v1 <= result v2].  The
    division and the multiplication of the interpolation keep the
    order. *)
Theorem cubic_ramp_nondecreasing_binary64
    (libm_pow3 : float -> float) (v1 v2 rp ci r co a1 a2 b : float) :
  is_finite rp = true -> (0 <=? rp) = true ->
  (ci <=? v1) = true -> (v1 <=? v2) = true -> (v2 <? r) = true ->
  (v2 <? co) = true ->
  Binary64.float_pow3 libm_pow3 v1 = Ok a1 ->
  Binary64.float_pow3 libm_pow3 v2 = Ok a2 ->
  Binary64.float_pow3 libm_pow3 r = Ok b ->
  is_finite b = true -> (b =? 0) = false ->
  (0 <=? a1) = true -> (a1 <=? a2) = true -> (a2 <=? b) = true ->
  exists p1 p2,
    Binary64.wind_turbine_power libm_pow3 v1 rp ci r co "cubic" = Ok p1 /\
    Binary64.wind_turbine_power libm_pow3 v2 rp ci r co "cubic" = Ok p2 /\
    (p1 <=? p2) = true.
Proof.
  intros Frp Prp A B C D P1 P2 Pb Fb Z Q0 Q1 Q2.
  pose proof (leb_trans _ _ _ A B) as A2.
  pose proof (leb_ltb_trans _ _ _ B C) as C1.
  pose proof (leb_ltb_trans _ _ _ B D) as D1.
  destruct (ramp_not_idle _ _ _ _ A C1 D1) as [_ R1].
  destruct (ramp_not_idle _ _ _ _ A2 C D) as [_ R2].
  rewrite !(binary64_valid _ _ _ _ _ _ _ valid_cubic).
  rewrite (binary64_region_ramp _ _ _ _ _ _ _ R1 (ltb_not_leb _ _ D1)).
  rewrite (binary64_region_ramp _ _ _ _ _ _ _ R2 (ltb_not_leb _ _ D)).
  rewrite (binary64_ramp_cubic _ _ _ _ _ _ _ P1 Pb).
  rewrite (binary64_ramp_cubic _ _ _ _ _ _ _ P2 Pb).
  unfold Binary64.truediv. rewrite Z. cbn [bind].
  eexists; eexists. split; [reflexivity |]. split; [reflexivity |].
  assert (F1 : is_finite 1 = true) by reflexivity.
  pose proof (leb_trans _ _ _ Q0 Q1) as Q0'.
  pose proof (nonneg_nonzero_positive _ (leb_trans _ _ _ Q0' Q2) Z) as Pb'.
  pose proof (leb_finite _ _ Q0' Q2 Fb) as Fa2.
  destruct (float_div_mono _ _ _ Fa2 Q0 Q1 Fb Pb') as [G0 G12].
  destruct (float_div_mono _ _ _ Fb Q0' Q2 Fb Pb') as [G0' G2].
  rewrite (float_div_self _ Fb Z) in G2.
  pose proof (leb_finite _ _ G0' G2 F1) as Fg2.
  destruct (float_mul_mono _ _ rp Fg2 G0 G12 Frp Prp) as [_ M].
  exact M.
Qed.

Lemma cubic_ramp_nondecreasing_binary64_witness :
  is_finite 15 = true /\ (0 <=? 15) = true /\
  (3 <=? 5) = true /\ (5 <=? 7) = true /\ (7 <? 11) = true /\
  (7 <? 25) = true /\
  Binary64.float_pow3 Binary64.correctly_rounded_cube 5 = Ok 125 /\
  Binary64.float_pow3 Binary64.correctly_rounded_cube 7 = Ok 343 /\
  Binary64.float_pow3 Binary64.correctly_rounded_cube 11 = Ok 1331 /\
  is_finite 1331 = true /\ (1331 =? 0) = false /\
  (0 <=? 125) = true /\ (125 <=? 343) = true /\ (343 <=? 1331) = true /\
  exists p1 p2,
    Binary64.wind_turbine_power Binary64.correctly_rounded_cube
      5 15 3 11 25 "cubic" = Ok p1 /\
    Binary64.wind_turbine_power Binary64.correctly_rounded_cube
      7 15 3 11 25 "cubic" = Ok p2 /\
    (p1 <=? p2) = true.
Proof.
  assert (Frp : is_finite 15 = true) by reflexivity.
  assert (Prp : (0 <=? 15) = true) by reflexivity.
  assert (A : (3 <=? 5) = true) by reflexivity.
  assert (B : (5 <=? 7) = true) by reflexivity.
  assert (C : (7 <? 11) = true) by reflexivity.
  assert (D : (7 <? 25) = true) by reflexivity.
  assert (P1 : Binary64.float_pow3 Binary64.correctly_rounded_cube 5 = Ok 125)
    by (vm_compute; reflexivity).
  assert (P2 : Binary64.float_pow3 Binary64.correctly_rounded_cube 7 = Ok 343)
    by (vm_compute; reflexivity).
  assert (Pb : Binary64.float_pow3 Binary64.correctly_rounded_cube 11
               = Ok 1331)
    by (vm_compute; reflexivity).
  assert (Fb : is_finite 1331 = true) by reflexivity.
  assert (Z : (1331 =? 0) = false) by reflexivity.
  assert (Q0 : (0 <=? 125) = true) by reflexivity.
  assert (Q1 : (125 <=? 343) = true) by reflexivity.
  assert (Q2 : (343 <=? 1331) = true) by reflexivity.
  split; [exact Frp |]. split; [exact Prp |]. split; [exact A |].
  split; [exact B |]. split; [exact C |]. split; [exact D |].
  split; [exact P1 |]. split; [exact P2 |]. split; [exact Pb |].
  split; [exact Fb |]. split; [exact Z |]. split; [exact Q0 |].
  split; [exact Q1 |]. split; [exact Q2 |].
  exact (cubic_ramp_nondecreasing_binary64 Binary64.correctly_rounded_cube
           5 7 15 3 11 25 125 343 1331
           Frp Prp A B C D P1 P2 Pb Fb Z Q0 Q1 Q2).
Defined.

(** X14: with [cut_out_wind_speed <= cut_in_wind_speed] the first test
    catches every wind speed that is a number: for a valid option and a
    wind speed that is not NaN the call returns [0.0], whatever the rated
    power and the rated wind speed. *)
Theorem cut_out_not_above_cut_in_binary64
    (libm_pow3 : float -> float) (ws rp ci r co : float) (o : string) :
  valid_option o ->
  (co <=? ci) = true ->
  is_nan ws = false ->
  Binary64.wind_turbine_power libm_pow3 ws rp ci r co o = Ok 0.
Proof.
  intros V H N. rewrite binary64_valid by exact V.
  unfold Binary64.region_logic, Binary64.idle_test.
  destruct (ws <? ci) eqn:A; [reflexivity |].
  destruct (leb_not_nan _ _ H) as [_ Nci].
  pose proof (not_ltb_leb _ _ N Nci A) as B.
  rewrite (leb_trans _ _ _ H B). reflexivity.
Qed.

Lemma cut_out_not_above_cut_in_binary64_witness :
  valid_option "cubic" /\ (3 <=? 5) = true /\ is_nan 7 = false /\
  Binary64.wind_turbine_power Binary64.correctly_rounded_cube
    7 15 5 0 3 "cubic" = Ok 0.
Proof.
  assert (V : valid_option "cubic") by (right; reflexivity).
  assert (H : (3 <=? 5) = true) by reflexivity.
  assert (N : is_nan 7 = false) by reflexivity.
  split; [exact V |]. split; [exact H |]. split; [exact N |].
  exact (cut_out_not_above_cut_in_binary64 Binary64.correctly_rounded_cube
           7 15 5 0 3 "cubic" V H N).
Defined.

(** X16: a wind speed that is NaN fails the tests of the idle region and
    of the ramp, and the call returns [rated_power], for either valid
    option and whatever the other arguments. *)
Theorem nan_wind_speed_returns_rated_power
    (libm_pow3 : float -> float) (ws rp ci r co : float) (o : string) :
  valid_option o ->
  is_nan ws = true ->
  Binary64.wind_turbine_power libm_pow3 ws rp ci r co o = Ok rp.
Proof.
  intros V N. rewrite binary64_valid by exact V.
  unfold Binary64.region_logic, Binary64.idle_test, Binary64.ramp_test.
  destruct (nan_compare ws ci N) as (A & _ & _ & B).
  destruct (nan_compare ws co N) as (_ & _ & _ & C).
  rewrite A, B, C. reflexivity.
Qed.

Lemma nan_wind_speed_returns_rated_power_witness :
  valid_option "linear" /\ is_nan nan = true /\
  Binary64.wind_turbine_power Binary64.correctly_rounded_cube
    nan 15 3 11 25 "linear" = Ok 15.
Proof.
  assert (V : valid_option "linear") by (left; reflexivity).
  assert (N : is_nan nan = true) by reflexivity.
  split; [exact V |]. split; [exact N |].
  exact (nan_wind_speed_returns_rated_power Binary64.correctly_rounded_cube
           nan 15 3 11 25 "linear" V N).
Defined.

(** X17: the linear ramp starts at zero: at a wind speed equal to a
    finite cut-in that is below the rated wind speed and below cut-out,
    with a finite rated power, the call in linear mode returns a zero. *)
Theorem linear_ramp_starts_at_zero_binary64
    (libm_pow3 : float -> float) (rp ci r co : float) :
  (ci <? r) = true -> (ci <? co) = true ->
  is_finite ci = true -> is_finite rp = true ->
  exists p,
    Binary64.wind_turbine_power libm_pow3 ci rp ci r co "linear" = Ok p /\
    (p =? 0) = true.
Proof.
  intros A C Fci Frp.
  destruct (ltb_not_nan _ _ A) as [N _].
  assert (R : Binary64.ramp_test ci ci r = true)
    by (unfold Binary64.ramp_test; rewrite (leb_refl _ N), A; reflexivity).
  rewrite (binary64_valid _ _ _ _ _ _ _ valid_linear).
  rewrite binary64_region_ramp by (try exact R; apply ltb_not_leb, C).
  rewrite (binary64_ramp_linear _ _ _ _ _ R).
  eexists; split; [reflexivity |].
  destruct (float_sub_pos _ _ A) as [P _].
  rewrite (float_sub_self _ Fci), (float_zero_div _ P). apply float_zero_mul. exact Frp.
Qed.

Lemma linear_ramp_starts_at_zero_binary64_witness :
  (3 <? 11) = true /\ (3 <? 25) = true /\
  is_finite 3 = true /\ is_finite 15 = true /\
  exists p,
    Binary64.wind_turbine_power Binary64.correctly_rounded_cube
      3 15 3 11 25 "linear" = Ok p /\
    (p =? 0) = true.
Proof.
  assert (A : (3 <? 11) = true) by reflexivity.
  assert (C : (3 <? 25) = true) by reflexivity.
  assert (Fci : is_finite 3 = true) by reflexivity.
  assert (Frp : is_finite 15 = true) by reflexivity.
  split; [exact A |]. split; [exact C |].
  split; [exact Fci |]. split; [exact Frp |].
  exact (linear_ramp_starts_at_zero_binary64 Binary64.correctly_rounded_cube
           15 3 11 25 A C Fci Frp).
Defined.
